(** * Learning-rate schedules of [skyeye/utils/scheduler.py]

    A shallow embedding of the two schedules of the module,
    [MultiStepMultiGammaLR] and [BurnInLR], over a small model of the
    Python run time they execute on:

    - Python [int] is [Z]; Python [float] is the kernel's binary64 [float],
      so every rate below is rounded exactly as CPython rounds it;
    - objects live in a heap and are named by their location, because the
      wrapper [BurnInLR] mutates the counter of the schedule it wraps and
      shares its optimizer;
    - a method is a computation in the monad [M] of heap transformers that
      may raise a Python exception. *)

From Stdlib Require Import ZArith List Bool Lia Floats Sorted.
From Equations Require Import Equations.
From stdpp Require Import base list.
Import ListNotations.

#[local] Set Warnings "-inexact-float".
#[local] Open Scope Z_scope.

(** ** The Python run time *)

Module Py.

(** The exceptions that the modelled code can raise. *)
Inductive exn : Set :=
| ValueError
| ZeroDivisionError
| OverflowError
| IndexError
| AttributeError
| TypeError
| RecursionError.

(** The outcome of evaluating an expression: a value or a raised exception. *)
Inductive outcome (A : Type) : Type :=
| Return (a : A)
| Raise (e : exn).
Arguments Return {A} a.
Arguments Raise {A} e.

Definition bind_outcome {A B} (c : outcome A) (k : A -> outcome B) : outcome B :=
  match c with
  | Return a => k a
  | Raise e => Raise e
  end.

(** The binary64 value nearest to the integer [n], ties to even; an
    infinity when [n] is out of range. *)
Definition Z2F (n : Z) : float := SF2Prim (binary_normalize prec emax n 0 false).

(** [float(n)] for an [int] [n], as the mixed [int]/[float] operators apply
    it: the nearest binary64 value, and [OverflowError] when that value is
    not finite. *)
Definition float_of_int (n : Z) : outcome float :=
  let x := Z2F n in
  if is_infinity x then Raise OverflowError else Return x.

(** [x / n] for a [float] [x] and an [int] [n]: [n] is converted first, then
    a zero divisor raises [ZeroDivisionError]. *)
Definition float_truediv_int (x : float) (n : Z) : outcome float :=
  bind_outcome (float_of_int n) (fun d =>
  if is_zero d then Raise ZeroDivisionError else Return (x / d)%float).

(** [n * x] for an [int] [n] and a [float] [x]. *)
Definition int_mul_float (n : Z) (x : float) : outcome float :=
  bind_outcome (float_of_int n) (fun t => Return (t * x)%float).

(** [a[i]] for a list [a] and an index [i >= 0]. *)
Definition getitem {A} (a : list A) (i : nat) : outcome A :=
  match nth_error a i with
  | Some x => Return x
  | None => Raise IndexError
  end.

(** A list comprehension [[body x for x in xs]]: the body is evaluated
    element by element, left to right, and the first exception ends it. *)
Fixpoint comprehension {A B} (body : A -> outcome B) (xs : list A) : outcome (list B) :=
  match xs with
  | [] => Return []
  | x :: xs' =>
      bind_outcome (body x) (fun y =>
      bind_outcome (comprehension body xs') (fun ys => Return (y :: ys)))
  end.

(** [sorted(l)] on a list of ints: the ascending rearrangement of [l]
    (a stable insertion sort; on ints every sort returns the same list). *)
Fixpoint insort (x : Z) (l : list Z) : list Z :=
  match l with
  | [] => [x]
  | y :: l' => if x <=? y then x :: y :: l' else y :: insort x l'
  end.

Definition sorted (l : list Z) : list Z := fold_right insort [] l.

(** [bisect.bisect_right(a, x)]: the loop of the standard library,
<<
    while lo < hi:
        mid = (lo + hi) // 2
        if x < a[mid]: hi = mid
        else: lo = mid + 1
    return lo
>>
    started at [lo = 0], [hi = len(a)]. *)
Equations bisect_loop (a : list Z) (x : Z) (lo hi : nat) : nat by wf (hi - lo)%nat lt :=
  bisect_loop a x lo hi with lt_dec lo hi := {
    | left _ with Z_lt_dec x (nth ((lo + hi) / 2) a 0) := {
        | left _ => bisect_loop a x lo ((lo + hi) / 2)
        | right _ => bisect_loop a x ((lo + hi) / 2 + 1) hi }
    | right _ => lo }.
Next Obligation.
  intros a x lo hi _ Hlt _.
  assert (((lo + hi) / 2 < hi)%nat) by (apply Nat.Div0.div_lt_upper_bound; lia).
  lia.
Qed.
Next Obligation.
  intros a x lo hi _ Hlt _.
  assert ((lo <= (lo + hi) / 2)%nat) by (apply Nat.div_le_lower_bound; lia).
  lia.
Qed.

Definition bisect_right (a : list Z) (x : Z) : nat := bisect_loop a x 0 (length a).

End Py.
Import Py.

(** ** The heap *)

Module Heap.

Abbreviation loc := nat.

(** The state every schedule inherits from the base class: the optimizer
    it drives, the base rates and the step counter. *)
Record LRScheduler_state : Type := {
  optimizer : loc;
  base_lrs : list float;
  last_epoch : Z
}.

Definition with_last_epoch (s : LRScheduler_state) (t : Z) : LRScheduler_state :=
  {| optimizer := optimizer s; base_lrs := base_lrs s; last_epoch := t |}.

(** The objects of the heap, by class. A parameter group is represented by
    its rate field ['lr']. [OtherLR] stands for an instance of any further
    subclass of the base class: its [get_lr] is a function of its counter
    and base rates. *)
Inductive obj : Type :=
| Optimizer (param_groups : list float)
| MultiStepMultiGammaLR (s : LRScheduler_state) (milestones : list Z) (gamma : list float)
| BurnInLR (s : LRScheduler_state) (base : loc) (steps : Z) (start : float)
| OtherLR (s : LRScheduler_state) (rates : Z -> list float -> outcome (list float)).

Abbreviation heap := (list obj).

(** A method body: it reads and writes the heap, and returns or raises. *)
Definition M (A : Type) : Type := heap -> outcome A * heap.

Definition ret {A} (a : A) : M A := fun h => (Return a, h).

Definition raise {A} (e : exn) : M A := fun h => (Raise e, h).

Definition bind {A B} (c : M A) (k : A -> M B) : M B :=
  fun h => match c h with
           | (Return a, h') => k a h'
           | (Raise e, h') => (Raise e, h')
           end.

Definition lift {A} (c : outcome A) : M A := fun h => (c, h).

Notation "x <- c ;; k" := (bind c (fun x => k))
  (at level 90, c at next level, right associativity).
Notation "c ;;; k" := (bind c (fun _ => k))
  (at level 90, right associativity).

(** Reading the object a reference points to. *)
Definition deref (l : loc) : M obj :=
  fun h => match h !! l with
           | Some o => (Return o, h)
           | None => (Raise AttributeError, h)
           end.

(** Overwriting the object at a location. *)
Definition store (l : loc) (o : obj) : M unit :=
  fun h => (Return tt, <[l := o]> h).

(** Allocating a new object. *)
Definition alloc (o : obj) : M loc :=
  fun h => (Return (length h), h ++ [o]).

(** The inherited state of a schedule object. *)
Definition state_of (o : obj) : option LRScheduler_state :=
  match o with
  | Optimizer _ => None
  | MultiStepMultiGammaLR s _ _ => Some s
  | BurnInLR s _ _ _ => Some s
  | OtherLR s _ => Some s
  end.

Definition with_state (o : obj) (s : LRScheduler_state) : obj :=
  match o with
  | Optimizer g => Optimizer g
  | MultiStepMultiGammaLR _ m g => MultiStepMultiGammaLR s m g
  | BurnInLR _ b n x => BurnInLR s b n x
  | OtherLR _ r => OtherLR s r
  end.

(** [self.optimizer], [self.base_lrs], [self.last_epoch]. *)
Definition get_state (self : loc) : M LRScheduler_state :=
  o <- deref self ;;
  match state_of o with
  | Some s => ret s
  | None => raise AttributeError
  end.

(** [self.last_epoch = t]. *)
Definition set_last_epoch (self : loc) (t : Z) : M unit :=
  o <- deref self ;;
  match state_of o with
  | Some s => store self (with_state o (with_last_epoch s t))
  | None => raise AttributeError
  end.

End Heap.
Import Heap.

(** ** The base class *)

Module LRScheduler.

(** Modelled from the spec: the constructor of the base class
    [torch.optim.lr_scheduler.LRScheduler], which is not part of this
    repository. It keeps the optimizer reference, snapshots one base rate
    per parameter group and initialises the step counter to [last_epoch]
    (-1 unless resumed). *)
Definition __init__ (optimizer : loc) (last_epoch : Z) : M LRScheduler_state :=
  o <- deref optimizer ;;
  match o with
  | Optimizer param_groups =>
      ret {| optimizer := optimizer; base_lrs := param_groups; last_epoch := last_epoch |}
  | _ => raise TypeError
  end.

(** Writing a rate vector into the parameter groups, pairwise. *)
Fixpoint apply_rates (param_groups values : list float) : list float :=
  match param_groups, values with
  | _ :: groups', lr :: values' => lr :: apply_rates groups' values'
  | _, _ => param_groups
  end.

(** Modelled from the spec: [step(epoch=None)] of the base class, which is
    not part of this repository. It advances the counter (to [epoch] if
    given, else by one) and then applies the rate vector of the subclass,
    [self.get_lr()], to the parameter groups of the optimizer. [get_lr] is
    the dynamically dispatched method. *)
Definition step (get_lr : loc -> M (list float)) (self : loc) (epoch : option Z) : M unit :=
  s <- get_state self ;;
  set_last_epoch self (match epoch with Some e => e | None => last_epoch s + 1 end) ;;;
  values <- get_lr self ;;
  o <- deref (optimizer s) ;;
  match o with
  | Optimizer param_groups =>
      store (optimizer s) (Optimizer (apply_rates param_groups values))
  | _ => raise AttributeError
  end.

End LRScheduler.

(** ** [class MultiStepMultiGammaLR(LRScheduler)] *)

Module MultiStepMultiGammaLR.

(** The default of the argument [gamma]. *)
Definition default_gamma : list float := [0.1%float].

(** [__init__(self, optimizer, milestones, gamma=[0.1], last_epoch=-1)].
    The literal [1] of [[1] + gamma] is an [int]; [base_lr * 1] converts it
    to the float [1.0] before multiplying, so it is kept here as [1.0]. *)
Definition __init__ (optimizer : loc) (milestones : list Z) (gamma : list float)
    (last_epoch : Z) : M loc :=
  if negb (bool_decide (milestones = sorted milestones)) then raise ValueError
  else if negb (length milestones =? length gamma)%nat then raise ValueError
  else
    s <- LRScheduler.__init__ optimizer last_epoch ;;
    alloc (MultiStepMultiGammaLR s milestones (1%float :: gamma)).

(** [get_lr(self)]. *)
Definition get_lr (self : loc) : M (list float) :=
  o <- deref self ;;
  match o with
  | MultiStepMultiGammaLR s milestones gamma =>
      lift (comprehension
              (fun base_lr =>
                 bind_outcome (getitem gamma (bisect_right milestones (last_epoch s)))
                   (fun g => Return (base_lr * g)%float))
              (base_lrs s))
  | _ => raise AttributeError
  end.

End MultiStepMultiGammaLR.

(** ** [class BurnInLR(LRScheduler)] *)

Module BurnInLR.

(** [__init__(self, base, steps, start)]. *)
Definition __init__ (base : loc) (steps : Z) (start : float) : M loc :=
  b <- get_state base ;;
  s <- LRScheduler.__init__ (optimizer b) (last_epoch b) ;;
  alloc (BurnInLR s base steps start).

(** [step(self, epoch=None)]; [get_lr] is the dynamically dispatched
    method that the base class calls. *)
Definition step (get_lr : loc -> M (list float)) (self : loc) (epoch : option Z) : M unit :=
  LRScheduler.step get_lr self epoch ;;;
  o <- deref self ;;
  match o with
  | BurnInLR _ base _ _ =>
      epoch' <- match epoch with
                | None => b <- get_state base ;; ret (last_epoch b + 1)
                | Some e => ret e
                end ;;
      set_last_epoch base epoch'
  | _ => raise AttributeError
  end.

(** [get_lr(self)]; [base_get_lr] is the dynamically dispatched
    [self.base.get_lr]. *)
Definition get_lr (base_get_lr : loc -> M (list float)) (self : loc) : M (list float) :=
  o <- deref self ;;
  match o with
  | BurnInLR s base steps start =>
      let beta := start in
      alpha <- lift (float_truediv_int (1 - beta)%float steps) ;;
      if last_epoch s <=? steps then
        lift (comprehension
                (fun base_lr =>
                   bind_outcome (int_mul_float (last_epoch s) alpha)
                     (fun x => Return (base_lr * (x + beta))%float))
                (base_lrs s))
      else base_get_lr base
  | _ => raise AttributeError
  end.

End BurnInLR.

(** ** Method dispatch *)

(** [l.get_lr()] for the object at [l]. [depth] bounds the nesting of the
    calls, as the recursion limit of the interpreter does. *)
Fixpoint get_lr (depth : nat) (self : loc) : M (list float) :=
  match depth with
  | O => raise RecursionError
  | S depth' =>
      o <- deref self ;;
      match o with
      | MultiStepMultiGammaLR _ _ _ => MultiStepMultiGammaLR.get_lr self
      | BurnInLR _ _ _ _ => BurnInLR.get_lr (get_lr depth') self
      | OtherLR s rates => lift (rates (last_epoch s) (base_lrs s))
      | Optimizer _ => raise AttributeError
      end
  end.

(** [l.step(epoch)] for the object at [l]. *)
Definition step (depth : nat) (self : loc) (epoch : option Z) : M unit :=
  o <- deref self ;;
  match o with
  | BurnInLR _ _ _ _ => BurnInLR.step (get_lr depth) self epoch
  | Optimizer _ => raise AttributeError
  | _ => LRScheduler.step (get_lr depth) self epoch
  end.

(** The step counter of the schedule at [l]. *)
Definition counter_of (h : heap) (l : loc) : option Z :=
  match h !! l with
  | Some o => last_epoch <$> state_of o
  | None => None
  end.

(** ** Notions used in the statements *)

(** The number of milestone values that are at most [t]. *)
Definition count_le (t : Z) (milestones : list Z) : nat :=
  length (List.filter (fun m => m <=? t) milestones).

(** What the loop maintains: everything left of [lo] is at most [x],
    everything from [hi] on is greater. *)
Definition split_at (a : list Z) (x : Z) (lo hi : nat) : Prop :=
  (forall i, (i < lo)%nat -> nth i a 0 <= x) /\
  (forall i, (hi <= i < length a)%nat -> x < nth i a 0).

(** The counter that [step(epoch)] moves to from the counter [t]. *)
Definition next_epoch (epoch : option Z) (t : Z) : Z :=
  match epoch with
  | Some e => e
  | None => t + 1
  end.

(** The fraction of the base rate during burn-in: [t * alpha + beta] with
    [alpha = (1. - beta) / steps], with the operations and the rounding of
    [BurnInLR.get_lr]. *)
Definition ramp (start : float) (steps t : Z) : outcome float :=
  bind_outcome (float_truediv_int (1 - start)%float steps) (fun alpha =>
  bind_outcome (int_mul_float t alpha) (fun x => Return (x + start)%float)).

(** Two objects of the same shape differ at most in the step counter of a
    schedule and in the rates of the groups of an optimizer. *)
Definition same_shape (o o' : obj) : Prop :=
  match o, o' with
  | Optimizer g, Optimizer g' => length g = length g'
  | MultiStepMultiGammaLR s m g, MultiStepMultiGammaLR s' m' g' =>
      optimizer s = optimizer s' /\ base_lrs s = base_lrs s' /\ m = m' /\ g = g'
  | BurnInLR s b n x, BurnInLR s' b' n' x' =>
      optimizer s = optimizer s' /\ base_lrs s = base_lrs s' /\ b = b' /\ n = n' /\ x = x'
  | OtherLR s r, OtherLR s' r' =>
      optimizer s = optimizer s' /\ base_lrs s = base_lrs s' /\ r = r'
  | _, _ => False
  end.

(** [h'] is a later state of [h]: every object is still there, in the
    same shape. *)
Definition evolves (h h' : heap) : Prop :=
  forall l o, h !! l = Some o -> exists o', h' !! l = Some o' /\ same_shape o o'.

(** A method body takes every heap to a later state of it, whether it
    returns or raises. *)
Definition preserving {A} (c : M A) : Prop := forall h, evolves h (snd (c h)).

(** The schedule at [self] computes one rate for each of the [n] parameter
    groups of its optimizer: it has [n] base rates, and so has the schedule
    that a wrapper wraps. An instance of another subclass is assumed to
    answer with one rate per base rate. *)
Definition groups_at (h : heap) (s : LRScheduler_state) (n : nat) : Prop :=
  length (base_lrs s) = n /\
  exists groups, h !! optimizer s = Some (Optimizer groups) /\ length groups = n.

Inductive schedule_over (h : heap) (n : nat) : loc -> Prop :=
| over_MultiStepMultiGammaLR self s ms g :
    h !! self = Some (MultiStepMultiGammaLR s ms g) -> groups_at h s n ->
    schedule_over h n self
| over_BurnInLR self s b steps start :
    h !! self = Some (BurnInLR s b steps start) -> groups_at h s n ->
    schedule_over h n b ->
    schedule_over h n self
| over_OtherLR self s rates :
    h !! self = Some (OtherLR s rates) -> groups_at h s n ->
    (forall t bl vs, rates t bl = Return vs -> length vs = length bl) ->
    schedule_over h n self.

(** What [get_lr] needs in order to answer at [self] within [depth] nested
    calls. A [MultiStepMultiGammaLR] needs a factor for every position that
    [bisect_right] can give, as the constructor provides. A [BurnInLR] needs
    a divisor [steps] that is not zero and converts to a float; during
    burn-in its counter must convert as well, and past it the schedule it
    wraps must answer with one call less. An instance of another subclass
    must answer itself. *)
Fixpoint evaluable (depth : nat) (h : heap) (self : loc) : bool :=
  match depth with
  | O => false
  | S depth' =>
      match h !! self with
      | Some (MultiStepMultiGammaLR _ milestones gamma) =>
          (length milestones <? length gamma)%nat
      | Some (BurnInLR s base steps _) =>
          negb (steps =? 0) && (Z.abs steps <? 2 ^ 53) &&
          (if last_epoch s <=? steps then Z.abs (last_epoch s) <? 2 ^ 53
           else evaluable depth' h base)
      | Some (OtherLR s rates) =>
          match rates (last_epoch s) (base_lrs s) with
          | Return _ => true
          | Raise _ => false
          end
      | _ => false
      end
  end.

(** Two heaps hold the same schedules when they differ at most in the
    contents of their optimizers. *)
Definition same_schedules (h h' : heap) : Prop :=
  forall l : loc,
    match h !! l, h' !! l with
    | Some (Optimizer _), Some (Optimizer _) => True
    | o, o' => o = o'
    end.

(** [for _ in range(n): self.step()], the loop of the docstring. *)
Fixpoint step_loop (depth : nat) (self : loc) (n : nat) : M unit :=
  match n with
  | O => ret tt
  | S n' => step depth self None ;;; step_loop depth self n'
  end.

(** ** Scenarios *)

(** The end-to-end run of the specification, which is the example of the
    docstring: an optimizer with one group of rate 0.05, the schedule with
    [milestones=[30,80]] and [gamma=[0.1, 0.01]], stepped to the epochs 29,
    30 and 80. After each step it records the rate of the group and the
    answer of [get_lr]. *)
Definition observe (opt sched : loc) : M (list float * list float) :=
  o <- deref opt ;;
  match o with
  | Optimizer param_groups => q <- get_lr 1 sched ;; ret (param_groups, q)
  | _ => raise AttributeError
  end.

Definition end_to_end : M (list (list float * list float)) :=
  opt <- alloc (Optimizer [0.05%float]) ;;
  sched <- MultiStepMultiGammaLR.__init__ opt [30; 80] [0.1%float; 0.01%float] (-1) ;;
  step 1 sched (Some 29) ;;;
  r29 <- observe opt sched ;;
  step 1 sched (Some 30) ;;;
  r30 <- observe opt sched ;;
  step 1 sched (Some 80) ;;;
  r80 <- observe opt sched ;;
  ret [r29; r30; r80].

(** A wrapper with [steps=10] and [start=0.1] around the schedule of the
    docstring, both at counter [t], over one group of rate [base_rate]. *)
Definition burn_in_heap (base_rate : float) (t : Z) : heap :=
  [Optimizer [base_rate];
   MultiStepMultiGammaLR {| optimizer := 0%nat; base_lrs := [base_rate]; last_epoch := t |}
     [30; 80] [1; 0.1; 0.01]%float;
   BurnInLR {| optimizer := 0%nat; base_lrs := [base_rate]; last_epoch := t |}
     1%nat 10 0.1%float].

(** A wrapper with [steps=0] around the schedule of the docstring, both at
    counter [t], over one group of rate 0.05. *)
Definition zero_steps_heap (t : Z) : heap :=
  [Optimizer [0.05%float];
   MultiStepMultiGammaLR {| optimizer := 0%nat; base_lrs := [0.05%float]; last_epoch := t |}
     [30; 80] [1; 0.1; 0.01]%float;
   BurnInLR {| optimizer := 0%nat; base_lrs := [0.05%float]; last_epoch := t |}
     1%nat 0 0.1%float].

(** The rates that the wrapper's [step] itself applies past [steps] are
    queried before the inner counter is moved. A wrapper with [steps=2]
    around a schedule with the milestone 5, both at counter 4 over a group
    of rate 1.0: one [step()] takes both counters to 5 and leaves the group
    at rate 1.0, the inner rate at counter 4, while [get_lr] then answers
    with 0.1, the inner rate at counter 5. *)
Definition stale_rate_run : M (list float * list float) :=
  opt <- alloc (Optimizer [1%float]) ;;
  inner <- MultiStepMultiGammaLR.__init__ opt [5] [0.1%float] (-1) ;;
  wrapper <- BurnInLR.__init__ inner 2 0.5%float ;;
  step 2 wrapper (Some 4) ;;;
  step 2 wrapper None ;;;
  o <- deref opt ;;
  q <- get_lr 2 wrapper ;;
  match o with
  | Optimizer param_groups => ret (param_groups, q)
  | _ => raise AttributeError
  end.

(** A wrapper around a wrapper around the schedule of the docstring, the
    three of them at the counters [t2], [t1] and [t0]. *)
Definition nested_heap (t0 t1 t2 : Z) : heap :=
  [Optimizer [0.05%float];
   MultiStepMultiGammaLR {| optimizer := 0%nat; base_lrs := [0.05%float]; last_epoch := t0 |}
     [30; 80] [1; 0.1; 0.01]%float;
   BurnInLR {| optimizer := 0%nat; base_lrs := [0.05%float]; last_epoch := t1 |}
     1%nat 10 0.1%float;
   BurnInLR {| optimizer := 0%nat; base_lrs := [0.05%float]; last_epoch := t2 |}
     2%nat 5 0.5%float].

(** ** Facts about the run time *)

Section Sorting.

Lemma insort_hd (x y : Z) (l : list Z) :
  HdRel Z.le y l -> y <= x -> HdRel Z.le y (insort x l).
Proof.
  intros Hl Hyx. destruct l as [|z l]; simpl.
  - constructor. exact Hyx.
  - destruct (x <=? z); constructor; trivial.
    inversion Hl; assumption.
Qed.

Lemma insort_Sorted (x : Z) (l : list Z) :
  Sorted Z.le l -> Sorted Z.le (insort x l).
Proof.
  induction 1 as [|y l Hs IH Hhd]; simpl.
  - repeat constructor.
  - destruct (x <=? y) eqn:E.
    + constructor; [constructor; assumption|constructor; lia].
    + constructor; [exact IH|]. apply insort_hd; [exact Hhd|lia].
Qed.

Lemma sorted_Sorted (l : list Z) : Sorted Z.le (sorted l).
Proof.
  induction l as [|x l IH]; simpl; [constructor|].
  apply insort_Sorted, IH.
Qed.

Lemma insort_cons (x : Z) (l : list Z) : HdRel Z.le x l -> insort x l = x :: l.
Proof.
  destruct 1 as [|y l Hxy]; simpl; trivial.
  destruct (x <=? y) eqn:E; [reflexivity|lia].
Qed.

Lemma sorted_id (l : list Z) : Sorted Z.le l -> sorted l = l.
Proof.
  induction 1 as [|x l Hs IH Hhd]; simpl; trivial.
  rewrite IH. apply insort_cons, Hhd.
Qed.

(** The test of the constructor, [list(milestones) == sorted(milestones)],
    holds exactly for the lists in non-decreasing order. *)
Lemma sorted_fixpoint (l : list Z) : l = sorted l <-> Sorted Z.le l.
Proof.
  split.
  - intros E. rewrite E. apply sorted_Sorted.
  - intros H. symmetry. apply sorted_id, H.
Qed.

Lemma Sorted_nth_le (a : list Z) (i j : nat) :
  Sorted Z.le a -> (i <= j < length a)%nat -> nth i a 0 <= nth j a 0.
Proof.
  intros Hs. apply Sorted_StronglySorted in Hs; [|intros x y z; lia].
  revert i j. induction Hs as [|x a Hs IH Hall]; intros i j [Hij Hj]; simpl in *; [lia|].
  destruct i as [|i], j as [|j]; try lia.
  - rewrite List.Forall_forall in Hall. apply Hall, nth_In. lia.
  - apply IH. lia.
Qed.

End Sorting.

Section Bisect.

Lemma bisect_loop_split (a : list Z) (x : Z) (lo hi : nat) :
  Sorted Z.le a -> (lo <= hi <= length a)%nat -> split_at a x lo hi ->
  (lo <= bisect_loop a x lo hi <= hi)%nat /\
  split_at a x (bisect_loop a x lo hi) (bisect_loop a x lo hi).
Proof.
  intros Hs. funelim (bisect_loop a x lo hi); intros Hb [Hlo Hhi].
  - (* lo >= hi: the loop ends *)
    assert (hi = lo) by lia. subst hi. repeat split; trivial; lia.
  - (* x < a[mid]: hi = mid *)
    assert (((lo + hi) / 2 < hi)%nat) by (apply Nat.Div0.div_lt_upper_bound; lia).
    assert ((lo <= (lo + hi) / 2)%nat) by (apply Nat.div_le_lower_bound; lia).
    destruct H as [Hr Hsp]; trivial; [lia| |split; [lia|exact Hsp]].
    split; [exact Hlo|]. intros i Hi.
    apply Z.lt_le_trans with (1 := l0). apply Sorted_nth_le; [exact Hs|lia].
  - (* x >= a[mid]: lo = mid + 1 *)
    assert (((lo + hi) / 2 < hi)%nat) by (apply Nat.Div0.div_lt_upper_bound; lia).
    assert ((lo <= (lo + hi) / 2)%nat) by (apply Nat.div_le_lower_bound; lia).
    destruct H as [Hr Hsp]; trivial; [lia| |split; [lia|exact Hsp]].
    split; [|exact Hhi]. intros i Hi.
    apply Z.le_trans with (nth ((lo + hi) / 2) a 0); [|lia].
    apply Sorted_nth_le; [exact Hs|lia].
Qed.

Lemma split_at_count (a : list Z) (x : Z) (r : nat) :
  (r <= length a)%nat -> split_at a x r r -> count_le x a = r.
Proof.
  unfold count_le. revert r. induction a as [|y a IH]; intros r Hr [Hlo Hhi]; simpl in *.
  - lia.
  - destruct r as [|r].
    + assert (x < y) by (apply (Hhi 0%nat); lia).
      destruct (y <=? x) eqn:E; [lia|].
      apply (IH 0%nat); [lia|]. split; [intros; lia|].
      intros i Hi. apply (Hhi (S i)). lia.
    + assert (y <= x) by (apply (Hlo 0%nat); lia).
      destruct (y <=? x) eqn:E; [|lia]. simpl. f_equal.
      apply IH; [lia|]. split.
      * intros i Hi. apply (Hlo (S i)). lia.
      * intros i Hi. apply (Hhi (S i)). lia.
Qed.

(** On a list in non-decreasing order, [bisect_right] counts the elements
    that are at most [x]. *)
Lemma bisect_right_count (a : list Z) (x : Z) :
  Sorted Z.le a -> bisect_right a x = count_le x a.
Proof.
  intros Hs. unfold bisect_right.
  destruct (bisect_loop_split a x 0 (length a) Hs) as [Hr Hsp].
  - lia.
  - split; intros; lia.
  - symmetry. apply split_at_count; [lia|exact Hsp].
Qed.

Lemma count_le_bound (t : Z) (ms : list Z) : (count_le t ms <= length ms)%nat.
Proof. unfold count_le. apply filter_length_le. Qed.

End Bisect.

Section Binary64.

Lemma digits2_pos_shift (m : positive) (k : nat) :
  Zpos (digits2_pos (Nat.iter k xO m)) = Zpos (digits2_pos m) + Z.of_nat k.
Proof.
  induction k as [|k IH]; simpl (Nat.iter _ _ _).
  - simpl. lia.
  - cbn [digits2_pos]. rewrite Pos2Z.inj_succ, IH. lia.
Qed.

Lemma shr_1_shift (m : positive) (k : nat) :
  Nat.iter k shr_1 {| shr_m := Zpos (Nat.iter k xO m); shr_r := false; shr_s := false |}
  = {| shr_m := Zpos m; shr_r := false; shr_s := false |}.
Proof.
  induction k as [|k IH]; [reflexivity|].
  rewrite Nat.iter_succ_r. exact IH.
Qed.

Lemma iter_pos_nat {A} (f : A -> A) (p : positive) (x : A) :
  SpecFloat.iter_pos f p x = Nat.iter (Pos.to_nat p) f x.
Proof.
  revert x. induction p as [p IH|p IH|]; intros x; cbn [SpecFloat.iter_pos].
  - rewrite !IH, Pos2Nat.inj_xI. rewrite <- !Nat.iter_add. simpl Nat.iter at 1.
    rewrite <- Nat.iter_succ_r. f_equal. lia.
  - rewrite !IH, Pos2Nat.inj_xO. rewrite <- !Nat.iter_add. f_equal. lia.
  - reflexivity.
Qed.

(** The product of a finite binary64 number with [1.0] needs no rounding:
    the mantissa is shifted left by 52 bits and back. *)
Lemma SFmul_one_finite (s : bool) (m : positive) (e : Z) :
  bounded prec emax m e = true ->
  SFmul prec emax (S754_finite s m e) (Prim2SF 1) = S754_finite s m e.
Proof.
  intros Hb. unfold bounded in Hb. apply andb_true_iff in Hb as [Hc He].
  unfold canonical_mantissa in Hc. apply Z.eqb_eq in Hc.
  change (Prim2SF 1) with (S754_finite false 4503599627370496 (-52)).
  cbn [SFmul]. rewrite xorb_false_r.
  replace (m * 4503599627370496)%positive with (Nat.iter 52 xO m)
    by (rewrite Pos.mul_comm; reflexivity).
  unfold binary_round_aux.
  assert (H1 : shr_fexp prec emax (Zpos (Nat.iter 52 xO m)) (e + -52) loc_Exact
               = ({| shr_m := Zpos m; shr_r := false; shr_s := false |}, e)).
  { unfold shr_fexp. cbn [Zdigits2]. rewrite digits2_pos_shift.
    replace (Zpos (digits2_pos m) + Z.of_nat 52 + (e + -52))
      with (Zpos (digits2_pos m) + e) by lia.
    rewrite Hc. replace (e - (e + -52)) with 52 by lia.
    cbn [shr shr_record_of_loc]. rewrite iter_pos_nat.
    change (Pos.to_nat 52) with 52%nat. rewrite shr_1_shift. f_equal. lia. }
  rewrite H1. cbn [shr_m loc_of_shr_record round_nearest_even].
  assert (H2 : shr_fexp prec emax (Zpos m) e loc_Exact
               = ({| shr_m := Zpos m; shr_r := false; shr_s := false |}, e)).
  { unfold shr_fexp. cbn [Zdigits2]. rewrite Hc, Z.sub_diag. reflexivity. }
  rewrite H2. cbn [shr_m]. rewrite He. reflexivity.
Qed.

(** [x * 1.0 == x] for every float [x], infinities, zeros and NaN included. *)
Lemma float_mul_1_r (x : float) : (x * 1)%float = x.
Proof.
  apply Prim2SF_inj. rewrite mul_spec. unfold SF64mul.
  pose proof (Prim2SF_valid x) as Hv.
  destruct (Prim2SF x) as [s|s| |s m e].
  - change (Prim2SF 1) with (S754_finite false 4503599627370496 (-52)).
    cbn [SFmul]. now rewrite xorb_false_r.
  - change (Prim2SF 1) with (S754_finite false 4503599627370496 (-52)).
    cbn [SFmul]. now rewrite xorb_false_r.
  - reflexivity.
  - apply SFmul_one_finite. exact Hv.
Qed.

Lemma digits2_pos_lower (m : positive) : 2 ^ (Zpos (digits2_pos m) - 1) <= Zpos m.
Proof.
  induction m as [m IH|m IH|]; cbn [digits2_pos].
  - rewrite Pos2Z.inj_succ.
    replace (Z.succ (Zpos (digits2_pos m)) - 1) with (Z.succ (Zpos (digits2_pos m) - 1))
      by lia.
    rewrite Z.pow_succ_r by lia. lia.
  - rewrite Pos2Z.inj_succ.
    replace (Z.succ (Zpos (digits2_pos m)) - 1) with (Z.succ (Zpos (digits2_pos m) - 1))
      by lia.
    rewrite Z.pow_succ_r by lia. lia.
  - simpl. lia.
Qed.

Lemma digits2_pos_small (m : positive) : Zpos m < 2 ^ 53 -> Zpos (digits2_pos m) <= 53.
Proof.
  intros H. pose proof (digits2_pos_lower m) as L.
  destruct (Z.le_gt_cases (Zpos (digits2_pos m)) 53) as [|G]; trivial.
  assert (2 ^ 53 <= 2 ^ (Zpos (digits2_pos m) - 1)) by (apply Z.pow_le_mono_r; lia).
  lia.
Qed.

Lemma digits2_pos_iter (m k : positive) :
  Zpos (digits2_pos (Pos.iter xO m k)) = Zpos (digits2_pos m) + Zpos k.
Proof.
  induction k as [|k IH] using Pos.peano_ind.
  - simpl. lia.
  - rewrite Pos.iter_succ. cbn [digits2_pos]. rewrite Pos2Z.inj_succ, IH. lia.
Qed.

(** A mantissa and exponent in canonical form are rounded to themselves. *)
Lemma binary_round_aux_canonical (s : bool) (m : positive) (e : Z) :
  bounded prec emax m e = true ->
  binary_round_aux prec emax s (Zpos m) e loc_Exact = S754_finite s m e.
Proof.
  intros Hb. unfold bounded in Hb. apply andb_true_iff in Hb as [Hc He].
  unfold canonical_mantissa in Hc. apply Z.eqb_eq in Hc.
  unfold binary_round_aux.
  assert (H2 : shr_fexp prec emax (Zpos m) e loc_Exact
               = ({| shr_m := Zpos m; shr_r := false; shr_s := false |}, e)).
  { unfold shr_fexp. cbn [Zdigits2]. rewrite Hc, Z.sub_diag. reflexivity. }
  rewrite H2. cbn [shr_m loc_of_shr_record round_nearest_even]. rewrite H2.
  cbn [shr_m]. rewrite He. reflexivity.
Qed.

(** An integer below [2 ^ 53] in magnitude is a finite binary64 number. *)
Lemma binary_round_small (s : bool) (m : positive) :
  Zpos m < 2 ^ 53 ->
  exists m' e', binary_round prec emax s m 0 = S754_finite s m' e' /\
                bounded prec emax m' e' = true.
Proof.
  intros H. pose proof (digits2_pos_small m H) as Hd.
  assert (Hd1 : 1 <= Zpos (digits2_pos m)) by lia.
  unfold binary_round.
  assert (Hf : fexp prec emax (Zpos (digits2_pos m) + 0) = Zpos (digits2_pos m) - 53).
  { unfold fexp, emin, prec, emax. lia. }
  rewrite Hf. unfold shl_align.
  destruct (Zpos (digits2_pos m) - 53 - 0) as [|p|p] eqn:E; try lia.
  - assert (Hb : bounded prec emax m 0 = true).
    { unfold bounded, canonical_mantissa. rewrite Hf.
      apply andb_true_iff. split; [apply Z.eqb_eq; lia|reflexivity]. }
    exists m, 0. split; [apply binary_round_aux_canonical, Hb|exact Hb].
  - assert (Hb : bounded prec emax (Pos.iter xO m p) (Zpos (digits2_pos m) - 53) = true).
    { unfold bounded, canonical_mantissa. rewrite digits2_pos_iter.
      apply andb_true_iff. split.
      - apply Z.eqb_eq. unfold fexp, emin, prec, emax. lia.
      - apply Z.leb_le. unfold prec, emax. lia. }
    eexists _, _. split; [apply binary_round_aux_canonical, Hb|exact Hb].
Qed.

Lemma SF2Prim_finite (s : bool) (m : positive) (e : Z) :
  bounded prec emax m e = true ->
  is_infinity (SF2Prim (S754_finite s m e)) = false /\
  is_zero (SF2Prim (S754_finite s m e)) = false.
Proof.
  intros Hb.
  assert (Hp : Prim2SF (SF2Prim (S754_finite s m e)) = S754_finite s m e)
    by (apply Prim2SF_SF2Prim; exact Hb).
  unfold is_infinity, is_zero. rewrite !FloatAxioms.eqb_spec, FloatAxioms.abs_spec, Hp.
  change (Prim2SF infinity) with (S754_infinity false).
  change (Prim2SF zero) with (S754_zero false).
  split; [reflexivity|]. destruct s; reflexivity.
Qed.

Lemma Z2F_small (n : Z) :
  n <> 0 -> Z.abs n < 2 ^ 53 ->
  is_infinity (Z2F n) = false /\ is_zero (Z2F n) = false.
Proof.
  intros Hn Hb. unfold Z2F. destruct n as [|m|m]; [congruence| |]; cbn [binary_normalize].
  - destruct (binary_round_small false m) as (m' & e' & -> & Hv); [lia|].
    apply SF2Prim_finite, Hv.
  - destruct (binary_round_small true m) as (m' & e' & -> & Hv); [lia|].
    apply SF2Prim_finite, Hv.
Qed.

(** Every [int] below [2 ^ 53] in magnitude converts to a float. *)
Lemma float_of_int_small (n : Z) : Z.abs n < 2 ^ 53 -> float_of_int n = Return (Z2F n).
Proof.
  intros Hb. destruct (Z.eq_dec n 0) as [->|Hn]; [reflexivity|].
  unfold float_of_int. destruct (Z2F_small n Hn Hb) as [-> _]. reflexivity.
Qed.

(** Every such [int] other than zero is a divisor. *)
Lemma float_truediv_int_small (x : float) (n : Z) :
  n <> 0 -> Z.abs n < 2 ^ 53 -> float_truediv_int x n = Return (x / Z2F n)%float.
Proof.
  intros Hn Hb. unfold float_truediv_int. rewrite (float_of_int_small n Hb). simpl.
  destruct (Z2F_small n Hn Hb) as [_ ->]. reflexivity.
Qed.

Lemma int_mul_float_small (n : Z) (x : float) :
  Z.abs n < 2 ^ 53 -> int_mul_float n x = Return (Z2F n * x)%float.
Proof. intros Hb. unfold int_mul_float. rewrite (float_of_int_small n Hb). reflexivity. Qed.

End Binary64.

Section Comprehension.

Context {A B : Type}.

Lemma comprehension_map (f : A -> B) (body : A -> outcome B) (xs : list A) :
  (forall x, In x xs -> body x = Return (f x)) ->
  comprehension body xs = Return (map f xs).
Proof.
  induction xs as [|x xs IH]; intros Hb; simpl; [reflexivity|].
  rewrite Hb by (left; reflexivity). simpl.
  rewrite IH by (intros y Hy; apply Hb; right; exact Hy). reflexivity.
Qed.

Lemma comprehension_length (body : A -> outcome B) (xs : list A) (ys : list B) :
  comprehension body xs = Return ys -> length ys = length xs.
Proof.
  revert ys. induction xs as [|x xs IH]; intros ys; simpl.
  - intros [= <-]. reflexivity.
  - destruct (body x) as [y|e]; simpl; [|discriminate].
    destruct (comprehension body xs) as [ys'|e]; simpl; [|discriminate].
    intros [= <-]. simpl. f_equal. apply IH. reflexivity.
Qed.

End Comprehension.

(** ** Running the methods *)

Ltac run :=
  unfold get_state, set_last_epoch;
  unfold bind, ret, raise, lift, deref, store, alloc.

Section BaseClass.

Lemma get_state_eq (h : heap) (l : loc) (o : obj) (s : LRScheduler_state) :
  h !! l = Some o -> state_of o = Some s -> get_state l h = (Return s, h).
Proof. intros Hl Hs. run. rewrite Hl, Hs. reflexivity. Qed.

Lemma set_last_epoch_eq (h : heap) (l : loc) (o : obj) (s : LRScheduler_state) (t : Z) :
  h !! l = Some o -> state_of o = Some s ->
  set_last_epoch l t h = (Return tt, <[l := with_state o (with_last_epoch s t)]> h).
Proof. intros Hl Hs. run. rewrite Hl, Hs. reflexivity. Qed.

Lemma LRScheduler_init_eq (h : heap) (opt : loc) (groups : list float) (e : Z) :
  h !! opt = Some (Optimizer groups) ->
  LRScheduler.__init__ opt e h
  = (Return {| optimizer := opt; base_lrs := groups; last_epoch := e |}, h).
Proof. intros Ho. unfold LRScheduler.__init__. run. rewrite Ho. reflexivity. Qed.

(** The constructor of the base class never raises [ValueError] and never
    writes. *)
Lemma LRScheduler_init_cases (h : heap) (opt : loc) (e : Z) :
  (exists groups, h !! opt = Some (Optimizer groups)) \/
  (exists x, LRScheduler.__init__ opt e h = (Raise x, h) /\ x <> ValueError).
Proof.
  unfold LRScheduler.__init__. run.
  destruct (h !! opt) as [[g|s m g|s b n x|s r]|] eqn:Ho.
  - left. exists g. reflexivity.
  - right. exists TypeError. split; [reflexivity|discriminate].
  - right. exists TypeError. split; [reflexivity|discriminate].
  - right. exists TypeError. split; [reflexivity|discriminate].
  - right. exists AttributeError. split; [reflexivity|discriminate].
Qed.

Lemma apply_rates_length (groups values : list float) :
  length (LRScheduler.apply_rates groups values) = length groups.
Proof.
  revert values. induction groups as [|g groups IH]; intros [|v values]; simpl; trivial.
  f_equal. apply IH.
Qed.

End BaseClass.

Section MultiStepMultiGammaLR_facts.

Lemma init_unsorted (h : heap) (opt : loc) (ms : list Z) (g : list float) (e : Z) :
  ~ Sorted Z.le ms -> MultiStepMultiGammaLR.__init__ opt ms g e h = (Raise ValueError, h).
Proof.
  intros Hn. unfold MultiStepMultiGammaLR.__init__. rewrite bool_decide_eq_false_2; [reflexivity|].
  intros E. apply Hn, sorted_fixpoint, E.
Qed.

Lemma init_mismatch (h : heap) (opt : loc) (ms : list Z) (g : list float) (e : Z) :
  length ms <> length g -> MultiStepMultiGammaLR.__init__ opt ms g e h = (Raise ValueError, h).
Proof.
  intros Hn. unfold MultiStepMultiGammaLR.__init__.
  destruct (bool_decide (ms = sorted ms)); simpl; [|reflexivity].
  apply Nat.eqb_neq in Hn. rewrite Hn. reflexivity.
Qed.

Lemma init_checked (h : heap) (opt : loc) (ms : list Z) (g : list float) (e : Z) :
  Sorted Z.le ms -> length ms = length g ->
  MultiStepMultiGammaLR.__init__ opt ms g e h
  = (s <- LRScheduler.__init__ opt e ;; alloc (MultiStepMultiGammaLR s ms (1%float :: g))) h.
Proof.
  intros Hs Hl. unfold MultiStepMultiGammaLR.__init__.
  rewrite bool_decide_eq_true_2 by (apply sorted_fixpoint, Hs). simpl.
  apply Nat.eqb_eq in Hl. rewrite Hl. reflexivity.
Qed.

Lemma init_ok (h : heap) (opt : loc) (groups : list float) (ms : list Z) (g : list float) (e : Z) :
  Sorted Z.le ms -> length ms = length g -> h !! opt = Some (Optimizer groups) ->
  MultiStepMultiGammaLR.__init__ opt ms g e h
  = (Return (length h),
     h ++ [MultiStepMultiGammaLR {| optimizer := opt; base_lrs := groups; last_epoch := e |}
             ms (1%float :: g)]).
Proof.
  intros Hs Hl Ho. rewrite init_checked by assumption.
  unfold bind. rewrite (LRScheduler_init_eq _ _ _ _ Ho). reflexivity.
Qed.

(** What a successful construction has checked and built. *)
Lemma init_inv (h h' : heap) (opt self : loc) (ms : list Z) (g : list float) (e : Z) :
  MultiStepMultiGammaLR.__init__ opt ms g e h = (Return self, h') ->
  Sorted Z.le ms /\ length ms = length g /\
  exists groups, h !! opt = Some (Optimizer groups) /\ self = length h /\
    h' = h ++ [MultiStepMultiGammaLR {| optimizer := opt; base_lrs := groups; last_epoch := e |}
                 ms (1%float :: g)].
Proof.
  intros H.
  destruct (decide (ms = sorted ms)) as [Hs|Hs]; rewrite sorted_fixpoint in Hs.
  2:{ rewrite init_unsorted in H by exact Hs. discriminate. }
  destruct (Nat.eq_dec (length ms) (length g)) as [Hl|Hl].
  2:{ rewrite init_mismatch in H by exact Hl. discriminate. }
  split; [exact Hs|]. split; [exact Hl|].
  destruct (LRScheduler_init_cases h opt e) as [[groups Ho]|[x [Hx _]]].
  - exists groups. rewrite (init_ok _ _ _ _ _ _ Hs Hl Ho) in H.
    injection H as <- <-. repeat split; trivial.
  - rewrite init_checked in H by assumption. unfold bind in H. rewrite Hx in H. discriminate.
Qed.

(** [get_lr] on an object of the class, given the factor it looks up. *)
Lemma get_lr_factor (depth : nat) (h : heap) (self : loc) (s : LRScheduler_state)
    (ms : list Z) (gamma : list float) (f : float) :
  h !! self = Some (MultiStepMultiGammaLR s ms gamma) ->
  getitem gamma (bisect_right ms (last_epoch s)) = Return f ->
  get_lr (S depth) self h
  = (Return (map (fun base_lr => (base_lr * f)%float) (base_lrs s)), h).
Proof.
  intros Hl Hf. cbn [get_lr]. unfold MultiStepMultiGammaLR.get_lr. run. rewrite Hl. simpl. rewrite Hl.
  rewrite (comprehension_map (fun base_lr => (base_lr * f)%float)); [reflexivity|].
  intros x _. rewrite Hf. reflexivity.
Qed.

End MultiStepMultiGammaLR_facts.

Section Milestones.



Lemma bisect_right_split (a : list Z) (x : Z) :
  Sorted Z.le a ->
  (count_le x a <= length a)%nat /\ split_at a x (count_le x a) (count_le x a).
Proof.
  intros Hs. rewrite <- (bisect_right_count a x Hs). unfold bisect_right.
  destruct (bisect_loop_split a x 0 (length a) Hs) as [Hr Hsp].
  - lia.
  - split; intros; lia.
  - split; [lia|exact Hsp].
Qed.



End Milestones.

(** ** The piecewise step schedule *)

(** C2, as the code has it. The constructor raises [ValueError] (the
    [InvalidConfiguration] of the specification) exactly when [milestones]
    is not in non-decreasing order or its length differs from that of
    [gamma]. So the descending [[80, 30]] is always rejected, while the
    duplicate [[30, 30]] passes the order check: with two decay factors and
    an optimizer the construction succeeds. *)
Theorem MultiStepMultiGammaLR_init_ValueError :
  (forall (h : heap) (opt : loc) (ms : list Z) (g : list float) (e : Z),
      fst (MultiStepMultiGammaLR.__init__ opt ms g e h) = Raise ValueError
      <-> (~ Sorted Z.le ms \/ length ms <> length g)) /\
  (forall (h : heap) (opt : loc) (g : list float) (e : Z),
      MultiStepMultiGammaLR.__init__ opt [80; 30] g e h = (Raise ValueError, h)) /\
  (forall (h : heap) (opt : loc) (groups : list float) (g1 g2 : float) (e : Z),
      h !! opt = Some (Optimizer groups) ->
      exists self h',
        MultiStepMultiGammaLR.__init__ opt [30; 30] [g1; g2] e h = (Return self, h')).
Proof.
  split; [|split].
  - intros h opt ms g e. split.
    + intros H.
      destruct (decide (ms = sorted ms)) as [Hs|Hs]; rewrite sorted_fixpoint in Hs;
        [|left; exact Hs].
      destruct (Nat.eq_dec (length ms) (length g)) as [Hl|Hl]; [|right; exact Hl].
      exfalso. rewrite init_checked in H by assumption. unfold bind in H.
      destruct (LRScheduler_init_cases h opt e) as [[groups Ho]|[x [Hx Hne]]].
      * rewrite (LRScheduler_init_eq _ _ _ _ Ho) in H. discriminate.
      * rewrite Hx in H. simpl in H. congruence.
    + intros [H|H].
      * rewrite init_unsorted by exact H. reflexivity.
      * rewrite init_mismatch by exact H. reflexivity.
  - intros h opt g e. apply init_unsorted. intros H.
    inversion H as [|x l _ Hhd]; subst. inversion Hhd; subst. lia.
  - intros h opt groups g1 g2 e Ho. eexists _, _.
    apply (init_ok h opt groups [30; 30] [g1; g2] e); [|reflexivity|exact Ho].
    repeat constructor. lia.
Qed.

Lemma MultiStepMultiGammaLR_init_ValueError_witness :
  exists self h',
    MultiStepMultiGammaLR.__init__ 0%nat [30; 30] [0.1%float; 0.01%float] (-1)
      [Optimizer [0.05%float]]
    = (Return self, h').
Proof.
  apply (proj2 (proj2 MultiStepMultiGammaLR_init_ValueError)
           [Optimizer [0.05%float]] 0%nat [0.05%float] 0.1%float 0.01%float (-1)).
  reflexivity.
Defined.

(** C2, as stated: not every list that fails to be strictly increasing is
    rejected. *)
Lemma MultiStepMultiGammaLR_init_accepts_duplicates :
  ~ (forall (h : heap) (opt : loc) (ms : list Z) (g : list float) (e : Z),
        ~ Sorted Z.lt ms ->
        fst (MultiStepMultiGammaLR.__init__ opt ms g e h) = Raise ValueError).
Proof.
  intros H.
  specialize (H [Optimizer [0.05%float]] 0%nat [30; 30] [0.1%float; 0.01%float] (-1)).
  assert (Hn : ~ Sorted Z.lt [30; 30]).
  { intros Hs. inversion Hs as [|x l _ Hhd]; subst. inversion Hhd; subst. lia. }
  specialize (H Hn). vm_compute in H. discriminate.
Qed.

(** C7. A [gamma] whose length differs from that of [milestones] makes the
    constructor raise [ValueError] at once: no object is allocated and the
    heap is left as it was. *)
Theorem MultiStepMultiGammaLR_init_length_mismatch :
  forall (h : heap) (opt : loc) (ms : list Z) (g : list float) (e : Z),
    length ms <> length g ->
    MultiStepMultiGammaLR.__init__ opt ms g e h = (Raise ValueError, h).
Proof. intros h opt ms g e H. apply init_mismatch, H. Qed.

Lemma MultiStepMultiGammaLR_init_length_mismatch_witness :
  MultiStepMultiGammaLR.__init__ 0%nat [30; 80] [0.1%float] (-1) [Optimizer [0.05%float]]
  = (Raise ValueError, [Optimizer [0.05%float]]).
Proof.
  apply (MultiStepMultiGammaLR_init_length_mismatch
           [Optimizer [0.05%float]] 0%nat [30; 80] [0.1%float] (-1)).
  simpl. lia.
Defined.



(** C10. With no milestones and no decay factors both checks of the
    constructor pass, and at every counter [get_lr] returns the base rates
    themselves: the only factor is [1.0], and [x * 1.0] is [x] for every
    binary64 [x]. *)
Theorem MultiStepMultiGammaLR_no_milestones :
  forall (h : heap) (opt : loc) (groups : list float) (e : Z),
    h !! opt = Some (Optimizer groups) ->
    exists (self : loc) (h' : heap),
      MultiStepMultiGammaLR.__init__ opt [] [] e h = (Return self, h') /\
      h' !! self
      = Some (MultiStepMultiGammaLR
                {| optimizer := opt; base_lrs := groups; last_epoch := e |} [] [1%float]) /\
      forall (depth : nat) (h2 : heap) (s : LRScheduler_state),
        h2 !! self = Some (MultiStepMultiGammaLR s [] [1%float]) ->
        get_lr (S depth) self h2 = (Return (base_lrs s), h2).
Proof.
  intros h opt groups e Ho. eexists _, _. split; [|split].
  - apply (init_ok h opt groups [] [] e); [constructor|reflexivity|exact Ho].
  - apply list_lookup_middle. reflexivity.
  - intros depth h2 s Hself.
    rewrite (get_lr_factor depth h2 _ s [] [1%float] 1%float Hself) by reflexivity.
    f_equal. f_equal. rewrite <- (map_id (base_lrs s)) at 2.
    apply map_ext. intros x. apply float_mul_1_r.
Qed.

Lemma MultiStepMultiGammaLR_no_milestones_witness :
  exists (self : loc) (h' : heap),
    MultiStepMultiGammaLR.__init__ 0%nat [] [] (-1) [Optimizer [0.05%float]] = (Return self, h') /\
    h' !! self
    = Some (MultiStepMultiGammaLR
              {| optimizer := 0%nat; base_lrs := [0.05%float]; last_epoch := -1 |} [] [1%float]) /\
    forall (depth : nat) (h2 : heap) (s : LRScheduler_state),
      h2 !! self = Some (MultiStepMultiGammaLR s [] [1%float]) ->
      get_lr (S depth) self h2 = (Return (base_lrs s), h2).
Proof.
  apply (MultiStepMultiGammaLR_no_milestones [Optimizer [0.05%float]] 0%nat [0.05%float] (-1)).
  reflexivity.
Defined.

(** C6, as the code has it. The run yields 0.05 at epoch 29 and 0.0005 at
    epoch 80; at epoch 30 it yields the binary64 product of 0.05 and 0.1,
    which is 0.005000000000000001, the float next above 0.005. *)
Theorem MultiStepMultiGammaLR_end_to_end :
  fst (end_to_end [])
  = Return [([0.05], [0.05]);
            ([0.005000000000000001], [0.005000000000000001]);
            ([0.0005], [0.0005])]%float /\
  (0.05 * 0.1 = next_up 0.005)%float.
Proof. split; reflexivity. Qed.

(** C6, as stated: the rate at epoch 30 is not the float 0.005. *)
Lemma MultiStepMultiGammaLR_end_to_end_inexact :
  fst (end_to_end [])
  <> Return [([0.05], [0.05]); ([0.005], [0.005]); ([0.0005], [0.0005])]%float.
Proof.
  intros H.
  apply (f_equal (fun o => match o with
                           | Return [_; (r :: _, _); _] => Prim2SF r
                           | _ => S754_nan
                           end)) in H.
  vm_compute in H. discriminate.
Qed.

(** ** The burn-in wrapper *)

Section BurnInLR_facts.

Lemma float_truediv_int_zero (x : float) :
  float_truediv_int x 0 = Raise ZeroDivisionError.
Proof. reflexivity. Qed.

(** [get_lr] never writes to the heap, whether it returns or raises. *)
Lemma get_lr_frame (depth : nat) (self : loc) (h : heap) :
  snd (get_lr depth self h) = h.
Proof.
  revert self h. induction depth as [|depth IH]; intros self h; [reflexivity|].
  cbn [get_lr]. unfold BurnInLR.get_lr, MultiStepMultiGammaLR.get_lr. run.
  destruct (h !! self) as [[g|s m g|s b n x|s r]|] eqn:Hl; try reflexivity.
  - rewrite Hl. reflexivity.
  - rewrite Hl. destruct (float_truediv_int (1 - x) n) as [alpha|e]; [|reflexivity].
    destruct (last_epoch s <=? n); [reflexivity|].
    pose proof (IH b h) as Hb. destruct (get_lr depth b h) as [[vs|e] h']; exact Hb.
Qed.

Lemma get_lr_run (depth : nat) (self : loc) (h : heap) :
  get_lr depth self h = (fst (get_lr depth self h), h).
Proof.
  pose proof (get_lr_frame depth self h) as H.
  destruct (get_lr depth self h) as [r h']. simpl in *. congruence.
Qed.

Lemma BurnInLR_get_lr_alpha (depth : nat) (h : heap) (self : loc) (s : LRScheduler_state)
    (b : loc) (steps : Z) (start alpha : float) :
  h !! self = Some (BurnInLR s b steps start) ->
  float_truediv_int (1 - start)%float steps = Return alpha ->
  get_lr (S depth) self h
  = if last_epoch s <=? steps then
      (comprehension
         (fun base_lr =>
            bind_outcome (int_mul_float (last_epoch s) alpha)
              (fun x => Return (base_lr * (x + start))%float))
         (base_lrs s), h)
    else get_lr depth b h.
Proof.
  intros Hl Ha. cbn [get_lr]. unfold BurnInLR.get_lr. run.
  rewrite Hl. simpl. rewrite Hl, Ha.
  destruct (last_epoch s <=? steps); [reflexivity|].
  destruct (get_lr depth b h) as [[vs|e] h']; reflexivity.
Qed.

Lemma BurnInLR_get_lr_raise (depth : nat) (h : heap) (self : loc) (s : LRScheduler_state)
    (b : loc) (steps : Z) (start : float) (e : exn) :
  h !! self = Some (BurnInLR s b steps start) ->
  float_truediv_int (1 - start)%float steps = Raise e ->
  get_lr (S depth) self h = (Raise e, h).
Proof.
  intros Hl Ha. cbn [get_lr]. unfold BurnInLR.get_lr. run.
  rewrite Hl. simpl. rewrite Hl, Ha. reflexivity.
Qed.

Lemma BurnInLR_init_eq (h : heap) (base : loc) (o : obj) (b : LRScheduler_state)
    (groups : list float) (steps : Z) (start : float) :
  h !! base = Some o -> state_of o = Some b ->
  h !! optimizer b = Some (Optimizer groups) ->
  BurnInLR.__init__ base steps start h
  = (Return (length h),
     h ++ [BurnInLR {| optimizer := optimizer b; base_lrs := groups; last_epoch := last_epoch b |}
             base steps start]).
Proof.
  intros Hb Hs Ho. unfold BurnInLR.__init__, bind.
  rewrite (get_state_eq _ _ _ _ Hb Hs), (LRScheduler_init_eq _ _ _ _ Ho). reflexivity.
Qed.

End BurnInLR_facts.

(** C4, as the code has it. While the counter [t] is at most [steps], and
    provided the fraction [t * alpha + start], [alpha = (1 - start) / steps],
    can be evaluated, [get_lr] returns [base_rate_i * (t * alpha + start)]
    for every group, every operation rounded to binary64. The fraction can
    be evaluated whenever [steps] is not zero and [steps] and [t] are below
    [2 ^ 53] in magnitude; with [steps=0] it cannot. For [steps=10],
    [start=0.1] the fraction is 0.1 at [t=0], 0.5499999999999999 at [t=5]
    and 0.9999999999999999 at [t=10]: the last two are the floats next
    below 0.55 and 1.0. At [t = steps] the fraction is whatever the formula
    rounds to, on either side of 1.0: for [steps=7], [start=0.1] it is
    1.0000000000000002, the float next above 1.0. *)
Theorem BurnInLR_get_lr_ramp :
  (forall (depth : nat) (h : heap) (self : loc) (s : LRScheduler_state) (b : loc)
          (steps : Z) (start r : float),
      h !! self = Some (BurnInLR s b steps start) ->
      last_epoch s <= steps ->
      ramp start steps (last_epoch s) = Return r ->
      get_lr (S depth) self h
      = (Return (map (fun base_rate => (base_rate * r)%float) (base_lrs s)), h)) /\
  (forall (start : float) (steps t : Z),
      steps <> 0 -> Z.abs steps < 2 ^ 53 -> Z.abs t < 2 ^ 53 ->
      ramp start steps t = Return (Z2F t * ((1 - start) / Z2F steps) + start)%float) /\
  (forall (start : float) (t : Z), ramp start 0 t = Raise ZeroDivisionError) /\
  (ramp 0.1 10 0 = Return 0.1%float /\
   ramp 0.1 10 5 = Return 0.5499999999999999%float /\
   ramp 0.1 10 10 = Return 0.9999999999999999%float) /\
  (0.5499999999999999 = next_down 0.55 /\ 0.9999999999999999 = next_down 1)%float /\
  (ramp 0.1 7 7 = Return 1.0000000000000002%float /\
   1.0000000000000002%float = next_up 1%float).
Proof.
  split; [|split; [|repeat split]].
  - intros depth h self s b steps start r Hself Ht Hr. unfold ramp in Hr.
    destruct (float_truediv_int (1 - start) steps) as [alpha|e] eqn:Ha; [|discriminate].
    simpl in Hr.
    destruct (int_mul_float (last_epoch s) alpha) as [x|e] eqn:Hx; [|discriminate].
    injection Hr as <-.
    rewrite (BurnInLR_get_lr_alpha depth h self s b steps start alpha Hself Ha).
    apply Z.leb_le in Ht. rewrite Ht. f_equal.
    apply comprehension_map. intros base_lr _. rewrite Hx. reflexivity.
  - intros start steps t Hn Hs Ht. unfold ramp.
    rewrite (float_truediv_int_small _ steps Hn Hs). simpl.
    rewrite (int_mul_float_small t _ Ht). reflexivity.
Qed.

Lemma BurnInLR_get_lr_ramp_witness :
  get_lr 1 2%nat (burn_in_heap 0.05 5)
  = (Return (map (fun base_rate => (base_rate * 0.5499999999999999)%float) [0.05%float]),
     burn_in_heap 0.05 5).
Proof.
  apply (proj1 BurnInLR_get_lr_ramp 0%nat (burn_in_heap 0.05 5) 2%nat
           {| optimizer := 0%nat; base_lrs := [0.05%float]; last_epoch := 5 |}
           1%nat 10 0.1%float 0.5499999999999999%float).
  - reflexivity.
  - simpl. lia.
  - reflexivity.
Defined.

(** C4, as stated: at [t = steps = 10] with [start=0.1] the rate is not
    [1.0 * base_rate], and at [t=5] it is not [base_rate * 0.55]. *)
Lemma BurnInLR_ramp_inexact :
  ~ (forall base_rate : float,
        fst (get_lr 1 2%nat (burn_in_heap base_rate 10)) = Return [(1 * base_rate)%float]) /\
  ~ (forall base_rate : float,
        fst (get_lr 1 2%nat (burn_in_heap base_rate 5)) = Return [(base_rate * 0.55)%float]).
Proof.
  split; intros H; specialize (H 1%float);
    apply (f_equal (fun o => match o with
                             | Return (r :: _) => Prim2SF r
                             | _ => S754_nan
                             end)) in H;
    vm_compute in H; discriminate.
Qed.

(** C8. The constructor of [BurnInLR] checks nothing: around any schedule
    whose optimizer is in place it succeeds with [steps=0], for every
    [start]. Every later call of [get_lr] on the wrapper then raises
    [ZeroDivisionError], whatever its counter, and returns no rates. *)
Theorem BurnInLR_steps_zero :
  forall (h : heap) (base : loc) (o : obj) (b : LRScheduler_state) (groups : list float)
         (start : float),
    h !! base = Some o -> state_of o = Some b ->
    h !! optimizer b = Some (Optimizer groups) ->
    exists (self : loc) (h' : heap),
      BurnInLR.__init__ base 0 start h = (Return self, h') /\
      h' !! self
      = Some (BurnInLR {| optimizer := optimizer b; base_lrs := groups;
                          last_epoch := last_epoch b |} base 0 start) /\
      forall (depth : nat) (h2 : heap) (s : LRScheduler_state),
        h2 !! self = Some (BurnInLR s base 0 start) ->
        get_lr (S depth) self h2 = (Raise ZeroDivisionError, h2).
Proof.
  intros h base o b groups start Hb Hs Ho. eexists _, _. split; [|split].
  - apply (BurnInLR_init_eq h base o b groups 0 start Hb Hs Ho).
  - apply list_lookup_middle. reflexivity.
  - intros depth h2 s Hself.
    apply (BurnInLR_get_lr_raise depth h2 _ s base 0 start ZeroDivisionError Hself).
    apply float_truediv_int_zero.
Qed.

Lemma BurnInLR_steps_zero_witness :
  exists (self : loc) (h' : heap),
    BurnInLR.__init__ 1%nat 0 0.1%float
      [Optimizer [0.05%float];
       MultiStepMultiGammaLR {| optimizer := 0%nat; base_lrs := [0.05%float]; last_epoch := -1 |}
         [30; 80] [1; 0.1; 0.01]%float]
    = (Return self, h') /\
    h' !! self
    = Some (BurnInLR {| optimizer := 0%nat; base_lrs := [0.05%float]; last_epoch := -1 |}
              1%nat 0 0.1%float) /\
    forall (depth : nat) (h2 : heap) (s : LRScheduler_state),
      h2 !! self = Some (BurnInLR s 1%nat 0 0.1%float) ->
      get_lr (S depth) self h2 = (Raise ZeroDivisionError, h2).
Proof.
  apply (BurnInLR_steps_zero
           [Optimizer [0.05%float];
            MultiStepMultiGammaLR {| optimizer := 0%nat; base_lrs := [0.05%float]; last_epoch := -1 |}
              [30; 80] [1; 0.1; 0.01]%float]
           1%nat
           (MultiStepMultiGammaLR {| optimizer := 0%nat; base_lrs := [0.05%float]; last_epoch := -1 |}
              [30; 80] [1; 0.1; 0.01]%float)
           {| optimizer := 0%nat; base_lrs := [0.05%float]; last_epoch := -1 |}
           [0.05%float] 0.1%float); reflexivity.
Defined.

(** ** Stepping *)

Section Stepping.

(** One run of the base-class [step]: the counter is advanced first, the
    rates are then queried in that state and written to the optimizer. *)
Lemma LRScheduler_step_run (depth : nat) (h : heap) (self : loc) (o : obj)
    (s : LRScheduler_state) (epoch : option Z) :
  h !! self = Some o -> state_of o = Some s ->
  let h1 := <[self := with_state o (with_last_epoch s (next_epoch epoch (last_epoch s)))]> h in
  LRScheduler.step (get_lr depth) self epoch h
  = match fst (get_lr depth self h1) with
    | Raise e => (Raise e, h1)
    | Return values =>
        match h1 !! optimizer s with
        | Some (Optimizer groups) =>
            (Return tt,
             <[optimizer s := Optimizer (LRScheduler.apply_rates groups values)]> h1)
        | _ => (Raise AttributeError, h1)
        end
    end.
Proof.
  intros Hl Hs h1. unfold LRScheduler.step, bind at 1.
  rewrite (get_state_eq _ _ _ _ Hl Hs). unfold bind at 1.
  rewrite (set_last_epoch_eq _ _ _ _ _ Hl Hs).
  change (match epoch with Some e => e | None => last_epoch s + 1 end)
    with (next_epoch epoch (last_epoch s)).
  fold h1. unfold bind at 1. rewrite (get_lr_run depth self h1).
  destruct (fst (get_lr depth self h1)) as [values|e]; [|reflexivity].
  run. destruct (h1 !! optimizer s) as [[g|? ? ?|? ? ? ?|? ?]|]; reflexivity.
Qed.

Lemma state_of_with_state (o : obj) (s s' : LRScheduler_state) :
  state_of o = Some s -> state_of (with_state o s') = Some s'.
Proof. destruct o; simpl; intros; congruence. Qed.

(** One run of [BurnInLR.step] on a wrapper whose inner schedule is another
    object [b]: the base-class step first, then the counter of [b]. *)
Lemma BurnInLR_step_run (depth : nat) (h : heap) (self : loc) (s : LRScheduler_state)
    (b : loc) (steps : Z) (start : float) (epoch : option Z)
    (ob : obj) (sb : LRScheduler_state) :
  h !! self = Some (BurnInLR s b steps start) -> b <> self ->
  h !! b = Some ob -> state_of ob = Some sb ->
  let h1 := <[self := BurnInLR (with_last_epoch s (next_epoch epoch (last_epoch s)))
                        b steps start]> h in
  step depth self epoch h
  = match fst (get_lr depth self h1) with
    | Raise e => (Raise e, h1)
    | Return values =>
        match h1 !! optimizer s with
        | Some (Optimizer groups) =>
            (Return tt,
             <[b := with_state ob (with_last_epoch sb (next_epoch epoch (last_epoch sb)))]>
               (<[optimizer s := Optimizer (LRScheduler.apply_rates groups values)]> h1))
        | _ => (Raise AttributeError, h1)
        end
    end.
Proof.
  intros Hself Hne Hb Hsb h1.
  assert (Hlt : (self < length h)%nat) by (eapply lookup_lt_Some, Hself).
  assert (H1self : h1 !! self
                   = Some (BurnInLR (with_last_epoch s (next_epoch epoch (last_epoch s)))
                             b steps start))
    by (apply list_lookup_insert_eq, Hlt).
  assert (H1b : h1 !! b = Some ob)
    by (rewrite <- Hb; apply list_lookup_insert_ne; congruence).
  unfold step, bind at 1, deref. rewrite Hself.
  unfold BurnInLR.step, bind at 1.
  rewrite (LRScheduler_step_run depth h self _ s epoch Hself eq_refl).
  cbn [with_state]. fold h1.
  destruct (fst (get_lr depth self h1)) as [values|e]; [|reflexivity].
  destruct (h1 !! optimizer s) as [[groups|? ? ?|? ? ? ?|? ?]|] eqn:Ho; try reflexivity.
  assert (Hos : optimizer s <> self) by (intros E; rewrite E in Ho; congruence).
  assert (Hob : optimizer s <> b).
  { intros E. rewrite E in Ho. rewrite H1b in Ho. injection Ho as ->. discriminate. }
  set (h2 := <[optimizer s := Optimizer (LRScheduler.apply_rates groups values)]> h1).
  assert (H2self : h2 !! self = h1 !! self)
    by (apply list_lookup_insert_ne; exact Hos).
  assert (H2b : h2 !! b = Some ob)
    by (rewrite <- H1b; apply list_lookup_insert_ne; exact Hob).
  unfold bind at 1, deref. rewrite H2self, H1self.
  destruct epoch as [e|]; unfold bind at 1.
  - unfold ret. rewrite (set_last_epoch_eq _ _ _ _ _ H2b Hsb). reflexivity.
  - unfold bind at 1. rewrite (get_state_eq _ _ _ _ H2b Hsb). unfold ret.
    rewrite (set_last_epoch_eq _ _ _ _ _ H2b Hsb). reflexivity.
Qed.

Lemma counter_of_insert_eq (h : heap) (l : loc) (o : obj) (s : LRScheduler_state) :
  (l < length h)%nat -> state_of o = Some s ->
  counter_of (<[l := o]> h) l = Some (last_epoch s).
Proof.
  intros Hl Hs. unfold counter_of. rewrite list_lookup_insert_eq by exact Hl.
  rewrite Hs. reflexivity.
Qed.

Lemma counter_of_insert_ne (h : heap) (l l' : loc) (o : obj) :
  l <> l' -> counter_of (<[l := o]> h) l' = counter_of h l'.
Proof.
  intros Hne. unfold counter_of. rewrite list_lookup_insert_ne by exact Hne. reflexivity.
Qed.

End Stepping.

Section Synchronisation.

(** The counters after one call of the wrapper's [step], whatever its
    outcome [r]: the wrapper's counter has advanced; if the call returned,
    the inner schedule's counter has advanced from its own old value in
    the same way; and the call returns when the rate query in the advanced
    state returns and the optimizer is in place. *)
Lemma BurnInLR_step_counters (depth : nat) (h h' : heap) (self : loc)
    (s : LRScheduler_state) (b : loc) (steps : Z) (start : float)
    (epoch : option Z) (r : outcome unit) (c : Z) :
  h !! self = Some (BurnInLR s b steps start) -> b <> self ->
  counter_of h b = Some c ->
  step depth self epoch h = (r, h') ->
  counter_of h' self = Some (next_epoch epoch (last_epoch s)) /\
  (r = Return tt -> counter_of h' b = Some (next_epoch epoch c)) /\
  (forall values groups,
      fst (get_lr depth self
             (<[self := BurnInLR (with_last_epoch s (next_epoch epoch (last_epoch s)))
                          b steps start]> h)) = Return values ->
      h !! optimizer s = Some (Optimizer groups) -> r = Return tt).
Proof.
  intros Hself Hne Hc Hstep.
  assert (Hlt : (self < length h)%nat) by (eapply lookup_lt_Some, Hself).
  unfold counter_of in Hc.
  destruct (h !! b) as [ob|] eqn:Hb; [|discriminate].
  destruct (state_of ob) as [sb|] eqn:Hsb; [|discriminate].
  injection Hc as <-.
  rewrite (BurnInLR_step_run depth h self s b steps start epoch ob sb Hself Hne Hb Hsb)
    in Hstep.
  set (t := next_epoch epoch (last_epoch s)) in *.
  set (h1 := <[self := BurnInLR (with_last_epoch s t) b steps start]> h) in *.
  assert (H1 : counter_of h1 self = Some t)
    by (apply (counter_of_insert_eq h self (BurnInLR (with_last_epoch s t) b steps start)
                 (with_last_epoch s t) Hlt eq_refl)).
  destruct (fst (get_lr depth self h1)) as [values|e] eqn:Hq.
  - destruct (h1 !! optimizer s) as [[groups|? ? ?|? ? ? ?|? ?]|] eqn:Ho;
      injection Hstep as <- <-;
      try (split; [exact H1|split; [discriminate|]]; intros vs gs _ Hgs;
           assert (optimizer s <> self) by (intros E; rewrite E in Hgs; congruence);
           unfold h1 in Ho; rewrite list_lookup_insert_ne in Ho by congruence;
           rewrite Hgs in Ho; discriminate Ho).
    assert (Hos : optimizer s <> self).
    { intros E. rewrite E in Ho. unfold h1 in Ho.
      rewrite list_lookup_insert_eq in Ho by exact Hlt. discriminate. }
    assert (Hb2 : (b < length (<[optimizer s := Optimizer (LRScheduler.apply_rates groups values)]> h1))%nat).
    { rewrite length_insert. unfold h1. rewrite length_insert.
      eapply lookup_lt_Some, Hb. }
    split; [|split].
    + rewrite counter_of_insert_ne by exact Hne.
      rewrite counter_of_insert_ne by exact Hos. exact H1.
    + intros _.
      apply (counter_of_insert_eq _ b _ (with_last_epoch sb (next_epoch epoch (last_epoch sb))) Hb2).
      apply (state_of_with_state ob sb _ Hsb).
    + reflexivity.
  - injection Hstep as <- <-. split; [exact H1|]. split; [discriminate|].
    intros values groups Hv _. congruence.
Qed.

End Synchronisation.

(** C1. Let the wrapper [self] wrap another object [b] whose counter
    equals the wrapper's counter. Every call [self.step(epoch)] advances
    the wrapper's counter as the base class does, to [epoch] if given and
    by one otherwise, also when the call raises. When the call returns,
    the inner counter equals the wrapper's counter. The call returns
    whenever the rate query in the advanced state returns and the optimizer
    is in place. *)
Theorem BurnInLR_step_synchronises :
  forall (depth : nat) (h h' : heap) (self : loc) (s : LRScheduler_state) (b : loc)
         (steps : Z) (start : float) (epoch : option Z) (r : outcome unit),
    h !! self = Some (BurnInLR s b steps start) -> b <> self ->
    counter_of h b = Some (last_epoch s) ->
    step depth self epoch h = (r, h') ->
    let t := next_epoch epoch (last_epoch s) in
    counter_of h' self = Some t /\
    (r = Return tt -> counter_of h' b = counter_of h' self) /\
    (forall values groups,
        fst (get_lr depth self (<[self := BurnInLR (with_last_epoch s t) b steps start]> h))
        = Return values ->
        h !! optimizer s = Some (Optimizer groups) -> r = Return tt).
Proof.
  intros depth h h' self s b steps start epoch r Hself Hne Hc Hstep t.
  destruct (BurnInLR_step_counters depth h h' self s b steps start epoch r (last_epoch s)
              Hself Hne Hc Hstep) as (Hw & Hb & Hr).
  split; [exact Hw|]. split; [|exact Hr].
  intros E. rewrite Hw. apply Hb, E.
Qed.

Lemma BurnInLR_step_synchronises_witness :
  counter_of (snd (step 1 2%nat None (burn_in_heap 0.05 4))) 2%nat = Some 5 /\
  (fst (step 1 2%nat None (burn_in_heap 0.05 4)) = Return tt ->
   counter_of (snd (step 1 2%nat None (burn_in_heap 0.05 4))) 1%nat
   = counter_of (snd (step 1 2%nat None (burn_in_heap 0.05 4))) 2%nat) /\
  (forall values groups,
      fst (get_lr 1 2%nat
             (<[2%nat := BurnInLR {| optimizer := 0%nat; base_lrs := [0.05%float];
                                     last_epoch := 5 |} 1%nat 10 0.1%float]>
                (burn_in_heap 0.05 4)))
      = Return values ->
      burn_in_heap 0.05 4 !! 0%nat = Some (Optimizer groups) ->
      fst (step 1 2%nat None (burn_in_heap 0.05 4)) = Return tt).
Proof.
  apply (BurnInLR_step_synchronises 1%nat (burn_in_heap 0.05 4)
           (snd (step 1 2%nat None (burn_in_heap 0.05 4))) 2%nat
           {| optimizer := 0%nat; base_lrs := [0.05%float]; last_epoch := 4 |}
           1%nat 10 0.1%float None
           (fst (step 1 2%nat None (burn_in_heap 0.05 4)))).
  - reflexivity.
  - lia.
  - reflexivity.
  - reflexivity.
Defined.

(** C5, as the code has it. Provided the slope [(1 - start) / steps] can
    be evaluated, a wrapper whose counter [t] is past [steps] answers
    [get_lr] with exactly what [get_lr] of the inner schedule answers in
    the same state, an exception included: the inner rates at the inner
    counter. In a state that a returning call of the wrapper's [step] has
    produced from a state with equal counters, that inner counter is [t].
    The slope can be evaluated whenever [steps] is not zero and below
    [2 ^ 53] in magnitude. *)
Theorem BurnInLR_get_lr_delegates :
  (forall (depth : nat) (h : heap) (self : loc) (s : LRScheduler_state) (b : loc)
          (steps : Z) (start alpha : float),
      h !! self = Some (BurnInLR s b steps start) ->
      float_truediv_int (1 - start)%float steps = Return alpha ->
      steps < last_epoch s ->
      get_lr (S depth) self h = get_lr depth b h /\
      (forall (depth0 : nat) (h0 : heap) (s0 : LRScheduler_state) (epoch : option Z),
          h0 !! self = Some (BurnInLR s0 b steps start) -> b <> self ->
          counter_of h0 b = Some (last_epoch s0) ->
          step depth0 self epoch h0 = (Return tt, h) ->
          counter_of h b = Some (last_epoch s))) /\
  (forall (x : float) (steps : Z),
      steps <> 0 -> Z.abs steps < 2 ^ 53 ->
      float_truediv_int x steps = Return (x / Z2F steps)%float).
Proof.
  split; [|exact float_truediv_int_small].
  intros depth h self s b steps start alpha Hself Ha Ht. split.
  - rewrite (BurnInLR_get_lr_alpha depth h self s b steps start alpha Hself Ha).
    apply Z.leb_gt in Ht. rewrite Ht. reflexivity.
  - intros depth0 h0 s0 epoch Hself0 Hne Hc Hstep.
    destruct (BurnInLR_step_counters depth0 h0 h self s0 b steps start epoch (Return tt)
                (last_epoch s0) Hself0 Hne Hc Hstep) as (Hw & Hb & _).
    rewrite (Hb eq_refl), <- Hw. unfold counter_of. rewrite Hself. reflexivity.
Qed.

Lemma BurnInLR_get_lr_delegates_witness :
  get_lr 2 2%nat (burn_in_heap 0.05 30) = get_lr 1 1%nat (burn_in_heap 0.05 30) /\
  (forall (depth0 : nat) (h0 : heap) (s0 : LRScheduler_state) (epoch : option Z),
      h0 !! 2%nat = Some (BurnInLR s0 1%nat 10 0.1%float) -> 1%nat <> 2%nat ->
      counter_of h0 1%nat = Some (last_epoch s0) ->
      step depth0 2%nat epoch h0 = (Return tt, burn_in_heap 0.05 30) ->
      counter_of (burn_in_heap 0.05 30) 1%nat = Some 30).
Proof.
  apply (proj1 BurnInLR_get_lr_delegates 1%nat (burn_in_heap 0.05 30) 2%nat
           {| optimizer := 0%nat; base_lrs := [0.05%float]; last_epoch := 30 |}
           1%nat 10 0.1%float 0.09%float).
  - reflexivity.
  - reflexivity.
  - simpl. lia.
Defined.

(** C5, as stated: with [steps=0] a wrapper past [steps] does not answer
    with the inner rates; it raises [ZeroDivisionError]. *)
Lemma BurnInLR_get_lr_steps_zero :
  ~ (forall (depth : nat) (h : heap) (self : loc) (s : LRScheduler_state) (b : loc)
            (steps : Z) (start : float),
        h !! self = Some (BurnInLR s b steps start) ->
        steps < last_epoch s ->
        get_lr (S depth) self h = get_lr depth b h).
Proof.
  intros H.
  specialize (H 1%nat
                [Optimizer [0.05%float];
                 MultiStepMultiGammaLR
                   {| optimizer := 0%nat; base_lrs := [0.05%float]; last_epoch := 1 |}
                   [30; 80] [1; 0.1; 0.01]%float;
                 BurnInLR {| optimizer := 0%nat; base_lrs := [0.05%float]; last_epoch := 1 |}
                   1%nat 0 0.1%float]
                2%nat
                {| optimizer := 0%nat; base_lrs := [0.05%float]; last_epoch := 1 |}
                1%nat 0 0.1%float eq_refl).
  assert (Ht : 0 < 1) by lia. specialize (H Ht).
  apply (f_equal fst) in H. vm_compute in H. discriminate.
Qed.

(** The run above: the group is left at the inner rate of counter 4, and
    [get_lr] answers with the inner rate of counter 5. *)
Example stale_rate_run_result :
  fst (stale_rate_run []) = Return ([1%float], [0.1%float]).
Proof. reflexivity. Qed.

(** ** What the methods preserve *)

Section Preservation.

Lemma same_shape_refl (o : obj) : same_shape o o.
Proof. destruct o; simpl; repeat split. Qed.

Lemma same_shape_trans (o1 o2 o3 : obj) :
  same_shape o1 o2 -> same_shape o2 o3 -> same_shape o1 o3.
Proof.
  destruct o1, o2, o3; simpl; try tauto; try congruence;
    intuition congruence.
Qed.

Lemma same_shape_with_state (o : obj) (s : LRScheduler_state) (t : Z) :
  state_of o = Some s -> same_shape o (with_state o (with_last_epoch s t)).
Proof. destruct o; simpl; intros [= <-]; repeat split. Qed.

Lemma evolves_refl (h : heap) : evolves h h.
Proof. intros l o Hl. exists o. split; [exact Hl|apply same_shape_refl]. Qed.

Lemma evolves_trans (h1 h2 h3 : heap) : evolves h1 h2 -> evolves h2 h3 -> evolves h1 h3.
Proof.
  intros H12 H23 l o Hl.
  destruct (H12 l o Hl) as (o2 & Hl2 & Hs2).
  destruct (H23 l o2 Hl2) as (o3 & Hl3 & Hs3).
  exists o3. split; [exact Hl3|]. eapply same_shape_trans; eassumption.
Qed.

Lemma evolves_insert (h : heap) (l : loc) (o o' : obj) :
  h !! l = Some o -> same_shape o o' -> evolves h (<[l := o']> h).
Proof.
  intros Hl Hs l' o1 Hl'. destruct (decide (l = l')) as [<-|Hne].
  - exists o'. split.
    + apply list_lookup_insert_eq. eapply lookup_lt_Some, Hl.
    + congruence.
  - exists o1. split; [|apply same_shape_refl].
    rewrite list_lookup_insert_ne by exact Hne. exact Hl'.
Qed.

Lemma evolves_app (h : heap) (os : list obj) : evolves h (h ++ os).
Proof.
  intros l o Hl. exists o. split; [|apply same_shape_refl].
  apply lookup_app_l_Some, Hl.
Qed.

Lemma preserving_ret {A} (a : A) : preserving (ret a).
Proof. intros h. apply evolves_refl. Qed.

Lemma preserving_raise {A} (e : exn) : preserving (@raise A e).
Proof. intros h. apply evolves_refl. Qed.

Lemma preserving_lift {A} (c : outcome A) : preserving (lift c).
Proof. intros h. apply evolves_refl. Qed.

Lemma preserving_deref (l : loc) : preserving (deref l).
Proof. intros h. unfold deref. destruct (h !! l); apply evolves_refl. Qed.

Lemma preserving_alloc (o : obj) : preserving (alloc o).
Proof. intros h. apply evolves_app. Qed.

Lemma preserving_bind {A B} (c : M A) (k : A -> M B) :
  preserving c -> (forall a, preserving (k a)) -> preserving (bind c k).
Proof.
  intros Hc Hk h. unfold bind. specialize (Hc h).
  destruct (c h) as [[a|e] h1]; simpl in *; [|exact Hc].
  eapply evolves_trans; [exact Hc|apply Hk].
Qed.

Lemma preserving_get_state (l : loc) : preserving (get_state l).
Proof.
  apply preserving_bind; [apply preserving_deref|].
  intros o. destruct (state_of o); [apply preserving_ret|apply preserving_raise].
Qed.

Lemma preserving_set_last_epoch (l : loc) (t : Z) : preserving (set_last_epoch l t).
Proof.
  intros h. run. destruct (h !! l) as [o|] eqn:Hl; [|apply evolves_refl].
  destruct (state_of o) as [s|] eqn:Hs; [|apply evolves_refl].
  simpl. eapply evolves_insert; [exact Hl|]. apply same_shape_with_state, Hs.
Qed.

Lemma preserving_get_lr (depth : nat) (self : loc) : preserving (get_lr depth self).
Proof. intros h. rewrite get_lr_frame. apply evolves_refl. Qed.

Lemma preserving_LRScheduler_init (opt : loc) (e : Z) :
  preserving (LRScheduler.__init__ opt e).
Proof.
  apply preserving_bind; [apply preserving_deref|].
  intros [g|? ? ?|? ? ? ?|? ?]; first [apply preserving_ret|apply preserving_raise].
Qed.

Lemma preserving_LRScheduler_step (depth : nat) (self : loc) (epoch : option Z) :
  preserving (LRScheduler.step (get_lr depth) self epoch).
Proof.
  apply preserving_bind; [apply preserving_get_state|]. intros s.
  apply preserving_bind; [apply preserving_set_last_epoch|]. intros _.
  apply preserving_bind; [apply preserving_get_lr|]. intros values.
  intros h. run. destruct (h !! optimizer s) as [[g|? ? ?|? ? ? ?|? ?]|] eqn:Ho;
    try apply evolves_refl.
  simpl. eapply evolves_insert; [exact Ho|]. simpl.
  symmetry. apply apply_rates_length.
Qed.

Lemma preserving_BurnInLR_step (depth : nat) (self : loc) (epoch : option Z) :
  preserving (BurnInLR.step (get_lr depth) self epoch).
Proof.
  apply preserving_bind; [apply preserving_LRScheduler_step|]. intros _.
  apply preserving_bind; [apply preserving_deref|].
  intros [g|? ? ?|s b n x|? ?]; try apply preserving_raise.
  apply preserving_bind; [|intros t; apply preserving_set_last_epoch].
  destruct epoch as [e|]; [apply preserving_ret|].
  apply preserving_bind; [apply preserving_get_state|]. intros sb. apply preserving_ret.
Qed.

(** Every call of [step] leads to a later state. *)
Lemma preserving_step (depth : nat) (self : loc) (epoch : option Z) :
  preserving (step depth self epoch).
Proof.
  apply preserving_bind; [apply preserving_deref|].
  intros [g|? ? ?|s b n x|? ?];
    first [apply preserving_raise|apply preserving_BurnInLR_step
          |apply preserving_LRScheduler_step].
Qed.

(** So does every construction. *)
Lemma preserving_MultiStepMultiGammaLR_init (opt : loc) (ms : list Z) (g : list float) (e : Z) :
  preserving (MultiStepMultiGammaLR.__init__ opt ms g e).
Proof.
  unfold MultiStepMultiGammaLR.__init__.
  destruct (negb (bool_decide (ms = sorted ms))); [apply preserving_raise|].
  destruct (negb (length ms =? length g)%nat); [apply preserving_raise|].
  apply preserving_bind; [apply preserving_LRScheduler_init|].
  intros s. apply preserving_alloc.
Qed.

Lemma preserving_BurnInLR_init (base : loc) (steps : Z) (start : float) :
  preserving (BurnInLR.__init__ base steps start).
Proof.
  apply preserving_bind; [apply preserving_get_state|]. intros b.
  apply preserving_bind; [apply preserving_LRScheduler_init|].
  intros s. apply preserving_alloc.
Qed.

Lemma groups_at_evolves (h h' : heap) (s : LRScheduler_state) (n : nat) :
  evolves h h' -> groups_at h s n -> groups_at h' s n.
Proof.
  intros He (Hb & groups & Ho & Hg). split; [exact Hb|].
  destruct (He _ _ Ho) as ([g'|? ? ?|? ? ? ?|? ?] & Ho' & Hs); simpl in Hs; try contradiction.
  exists g'. split; [exact Ho'|congruence].
Qed.

(** A schedule over [n] groups stays one in every later state. *)
Lemma schedule_over_evolves (h h' : heap) (n : nat) (self : loc) :
  evolves h h' -> schedule_over h n self -> schedule_over h' n self.
Proof.
  intros He Hw. induction Hw as [self s ms g Hl Hg|self s b steps start Hl Hg Hb IH
                                |self s rates Hl Hg Hr].
  - destruct (He _ _ Hl) as ([?|s' ms' g'|? ? ? ?|? ?] & Hl' & Hs); simpl in Hs;
      try contradiction.
    destruct Hs as (Ho & Hbl & _ & _).
    apply (over_MultiStepMultiGammaLR h' n self s' ms' g' Hl').
    destruct (groups_at_evolves h h' s n He Hg) as (Hn & Hex).
    split; [congruence|]. rewrite <- Ho. exact Hex.
  - destruct (He _ _ Hl) as ([?|? ? ?|s' b' steps' start'|? ?] & Hl' & Hs); simpl in Hs;
      try contradiction.
    destruct Hs as (Ho & Hbl & <- & _ & _).
    apply (over_BurnInLR h' n self s' b steps' start' Hl'); [|exact IH].
    destruct (groups_at_evolves h h' s n He Hg) as (Hn & Hex).
    split; [congruence|]. rewrite <- Ho. exact Hex.
  - destruct (He _ _ Hl) as ([?|? ? ?|? ? ? ?|s' rates'] & Hl' & Hs); simpl in Hs;
      try contradiction.
    destruct Hs as (Ho & Hbl & <-).
    apply (over_OtherLR h' n self s' rates Hl'); [|exact Hr].
    destruct (groups_at_evolves h h' s n He Hg) as (Hn & Hex).
    split; [congruence|]. rewrite <- Ho. exact Hex.
Qed.

(** The constructors build schedules over the groups of their optimizer. *)
Lemma MultiStepMultiGammaLR_init_over (h h' : heap) (opt self : loc) (ms : list Z)
    (g : list float) (e : Z) (groups : list float) :
  h !! opt = Some (Optimizer groups) ->
  MultiStepMultiGammaLR.__init__ opt ms g e h = (Return self, h') ->
  schedule_over h' (length groups) self.
Proof.
  intros Ho Hinit. apply init_inv in Hinit as (_ & _ & groups' & Ho' & -> & ->).
  rewrite Ho in Ho'. injection Ho' as <-.
  eapply over_MultiStepMultiGammaLR.
  - apply list_lookup_middle. reflexivity.
  - split; [reflexivity|]. exists groups. split; [|reflexivity].
    simpl. apply lookup_app_l_Some, Ho.
Qed.

Lemma BurnInLR_init_over (h h' : heap) (base self : loc) (steps : Z) (start : float)
    (n : nat) :
  schedule_over h n base ->
  BurnInLR.__init__ base steps start h = (Return self, h') ->
  schedule_over h' n self.
Proof.
  intros Hw Hinit.
  assert (Hb : exists o b, h !! base = Some o /\ state_of o = Some b /\ groups_at h b n).
  { destruct Hw; eexists _, _; (split; [eassumption|split; [reflexivity|assumption]]). }
  destruct Hb as (o & b & Hl & Hs & Hn & groups & Ho & Hg).
  rewrite (BurnInLR_init_eq h base o b groups steps start Hl Hs Ho) in Hinit.
  injection Hinit as <- <-.
  eapply over_BurnInLR.
  - apply list_lookup_middle. reflexivity.
  - split; [exact Hg|]. exists groups. split; [|exact Hg].
    simpl. apply lookup_app_l_Some, Ho.
  - eapply schedule_over_evolves; [apply evolves_app|exact Hw].
Qed.

End Preservation.

Section Query.

Lemma get_lr_length (depth : nat) (h : heap) (n : nat) (self : loc) (vs : list float) :
  schedule_over h n self -> fst (get_lr depth self h) = Return vs -> length vs = n.
Proof.
  intros Hw. revert depth vs.
  induction Hw as [self s ms g Hl [Hn _]|self s b steps start Hl [Hn _] Hb IH
                  |self s rates Hl [Hn _] Hr];
    intros [|depth] vs; try discriminate; cbn [get_lr];
    unfold BurnInLR.get_lr, MultiStepMultiGammaLR.get_lr; run; rewrite Hl; simpl.
  - rewrite Hl. simpl. intros Hv. apply comprehension_length in Hv. congruence.
  - rewrite Hl. destruct (float_truediv_int (1 - start) steps) as [alpha|e]; [|discriminate].
    destruct (last_epoch s <=? steps).
    + simpl. intros Hv. apply comprehension_length in Hv. congruence.
    + rewrite (get_lr_run depth b h).
      destruct (fst (get_lr depth b h)) as [vs'|e] eqn:Hq; [|discriminate].
      simpl. intros [= <-]. apply (IH depth vs' Hq).
  - intros Hv. apply Hr in Hv. congruence.
Qed.

(** In every later state a schedule keeps its tables, its parameters and
    its base rates. *)
Lemma MultiStepMultiGammaLR_kept (h h' : heap) (self : loc) (s : LRScheduler_state)
    (ms : list Z) (g : list float) :
  evolves h h' -> h !! self = Some (MultiStepMultiGammaLR s ms g) ->
  exists s', h' !! self = Some (MultiStepMultiGammaLR s' ms g) /\ base_lrs s' = base_lrs s.
Proof.
  intros He Hl.
  destruct (He _ _ Hl) as ([?|s' ms' g'|? ? ? ?|? ?] & Hl' & Hs); simpl in Hs;
    try contradiction.
  destruct Hs as (_ & Hb & <- & <-). exists s'. split; [exact Hl'|congruence].
Qed.

Lemma BurnInLR_kept (h h' : heap) (self : loc) (s : LRScheduler_state)
    (b : loc) (steps : Z) (start : float) :
  evolves h h' -> h !! self = Some (BurnInLR s b steps start) ->
  exists s', h' !! self = Some (BurnInLR s' b steps start) /\ base_lrs s' = base_lrs s.
Proof.
  intros He Hl.
  destruct (He _ _ Hl) as ([?|? ? ?|s' b' steps' start'|? ?] & Hl' & Hs); simpl in Hs;
    try contradiction.
  destruct Hs as (_ & Hb & <- & <- & <-). exists s'. split; [exact Hl'|congruence].
Qed.

End Query.

(** The wrapper of [burn_in_heap] is a schedule over the one group. *)
Example burn_in_heap_over (base_rate : float) (t : Z) :
  schedule_over (burn_in_heap base_rate t) 1 2%nat.
Proof.
  eapply over_BurnInLR; [reflexivity| |].
  - split; [reflexivity|]. eexists. split; reflexivity.
  - eapply over_MultiStepMultiGammaLR; [reflexivity|].
    split; [reflexivity|]. eexists. split; reflexivity.
Qed.

Section Answer.

(** The loop of [bisect_right] stays within its bounds on every list,
    sorted or not. *)
Lemma bisect_loop_bound (a : list Z) (x : Z) (lo hi : nat) :
  (lo <= hi)%nat -> (lo <= bisect_loop a x lo hi <= hi)%nat.
Proof.
  funelim (bisect_loop a x lo hi); intros Hb.
  - lia.
  - assert (((lo + hi) / 2 < hi)%nat) by (apply Nat.Div0.div_lt_upper_bound; lia).
    assert ((lo <= (lo + hi) / 2)%nat) by (apply Nat.div_le_lower_bound; lia).
    specialize (H ltac:(lia)). lia.
  - assert (((lo + hi) / 2 < hi)%nat) by (apply Nat.Div0.div_lt_upper_bound; lia).
    assert ((lo <= (lo + hi) / 2)%nat) by (apply Nat.div_le_lower_bound; lia).
    specialize (H ltac:(lia)). lia.
Qed.

Lemma bisect_right_bound (a : list Z) (x : Z) : (bisect_right a x <= length a)%nat.
Proof. unfold bisect_right. apply bisect_loop_bound. lia. Qed.

(** A schedule that has what [get_lr] needs gets an answer. *)
Lemma get_lr_returns (depth : nat) (h : heap) (self : loc) :
  evaluable depth h self = true -> exists vs, get_lr depth self h = (Return vs, h).
Proof.
  revert self. induction depth as [|depth IH]; intros self He; [discriminate|].
  cbn [evaluable] in He.
  destruct (h !! self) as [[g|s ms g|s b steps start|s rates]|] eqn:Hl; try discriminate.
  - apply Nat.ltb_lt in He.
    destruct (nth_error g (bisect_right ms (last_epoch s))) as [x|] eqn:Hx.
    2:{ apply nth_error_None in Hx. pose proof (bisect_right_bound ms (last_epoch s)). lia. }
    exists (map (fun base_lr => (base_lr * x)%float) (base_lrs s)).
    cbn [get_lr]. unfold MultiStepMultiGammaLR.get_lr. run. rewrite Hl. simpl. rewrite Hl.
    f_equal. apply comprehension_map. intros base_lr _. unfold getitem. rewrite Hx. reflexivity.
  - apply andb_prop in He as [He Hrest]. apply andb_prop in He as [Hn Hs].
    apply negb_true_iff, Z.eqb_neq in Hn. apply Z.ltb_lt in Hs.
    rewrite (BurnInLR_get_lr_alpha depth h self s b steps start _ Hl
               (float_truediv_int_small _ steps Hn Hs)).
    destruct (last_epoch s <=? steps).
    + apply Z.ltb_lt in Hrest. eexists. f_equal.
      apply comprehension_map. intros base_lr _.
      rewrite (int_mul_float_small _ _ Hrest). reflexivity.
    + apply IH, Hrest.
  - destruct (rates (last_epoch s) (base_lrs s)) as [vs|e] eqn:Hr; [|discriminate].
    exists vs. cbn [get_lr]. run. rewrite Hl, Hr. reflexivity.
Qed.

End Answer.

(** The wrapper of [zero_steps_heap] is a schedule over the one group. *)
Example zero_steps_heap_over (t : Z) : schedule_over (zero_steps_heap t) 1 2%nat.
Proof.
  eapply over_BurnInLR; [reflexivity| |].
  - split; [reflexivity|]. eexists. split; reflexivity.
  - eapply over_MultiStepMultiGammaLR; [reflexivity|].
    split; [reflexivity|]. eexists. split; reflexivity.
Qed.

(** C9, as the code has it. [get_lr] never writes: in every state and at
    every call depth the heap after the call is the heap before it, so the
    counters, the base rates, the milestone and decay tables, the burn-in
    parameters and the rates of the optimizer's groups are all unchanged,
    whether the call returns or raises. Whenever it returns on a schedule
    over its optimizer's groups, the answer has one rate per group, as many
    as [self] has base rates. It does return, with such an answer, when the
    schedule is [evaluable]: every wrapper on the way has a [steps] that is
    not zero and below [2 ^ 53] in magnitude, the wrapper that ramps has
    such a counter, the piecewise schedule has a factor more than it has
    milestones, and the nesting is within [depth]. *)
Theorem get_lr_pure_query :
  forall (depth : nat) (h : heap) (self : loc) (o : obj) (s : LRScheduler_state),
    h !! self = Some o -> state_of o = Some s ->
    snd (get_lr depth self h) = h /\
    (schedule_over h (length (base_lrs s)) self ->
     forall vs, fst (get_lr depth self h) = Return vs -> length vs = length (base_lrs s)) /\
    (schedule_over h (length (base_lrs s)) self ->
     evaluable depth h self = true ->
     exists vs, get_lr depth self h = (Return vs, h) /\ length vs = length (base_lrs s)).
Proof.
  intros depth h self o s _ _. split; [|split].
  - apply get_lr_frame.
  - intros Hw vs Hv. apply (get_lr_length depth h _ self vs Hw Hv).
  - intros Hw He. destruct (get_lr_returns depth h self He) as [vs Hv].
    exists vs. split; [exact Hv|].
    apply (get_lr_length depth h _ self vs Hw). rewrite Hv. reflexivity.
Qed.

Lemma get_lr_pure_query_witness :
  snd (get_lr 2 2%nat (burn_in_heap 0.05 30)) = burn_in_heap 0.05 30 /\
  (forall vs, fst (get_lr 2 2%nat (burn_in_heap 0.05 30)) = Return vs -> length vs = 1%nat) /\
  (exists vs, get_lr 2 2%nat (burn_in_heap 0.05 30) = (Return vs, burn_in_heap 0.05 30) /\
              length vs = 1%nat).
Proof.
  destruct (get_lr_pure_query 2%nat (burn_in_heap 0.05 30) 2%nat
              (BurnInLR {| optimizer := 0%nat; base_lrs := [0.05%float]; last_epoch := 30 |}
                 1%nat 10 0.1%float)
              {| optimizer := 0%nat; base_lrs := [0.05%float]; last_epoch := 30 |}
              eq_refl eq_refl) as [Hframe [Hlen Hret]].
  split; [exact Hframe|]. split.
  - exact (Hlen (burn_in_heap_over 0.05 30)).
  - apply (Hret (burn_in_heap_over 0.05 30)). reflexivity.
Defined.

(** C9, as stated: not every schedule in every state gets one rate per
    group from [get_lr]. The wrapper with [steps=0], a schedule over its
    optimizer's one group, gets no answer at any call depth. *)
Lemma get_lr_no_answer :
  ~ (forall (h : heap) (self : loc) (o : obj) (s : LRScheduler_state),
        h !! self = Some o -> state_of o = Some s ->
        schedule_over h (length (base_lrs s)) self ->
        exists (depth : nat) (vs : list float),
          get_lr depth self h = (Return vs, h) /\ length vs = length (base_lrs s)).
Proof.
  intros H.
  destruct (H (zero_steps_heap 5) 2%nat
              (BurnInLR {| optimizer := 0%nat; base_lrs := [0.05%float]; last_epoch := 5 |}
                 1%nat 0 0.1%float)
              {| optimizer := 0%nat; base_lrs := [0.05%float]; last_epoch := 5 |}
              eq_refl eq_refl (zero_steps_heap_over 5)) as (depth & vs & Hq & _).
  destruct depth as [|depth]; [discriminate|].
  rewrite (BurnInLR_get_lr_raise depth (zero_steps_heap 5) 2%nat
             {| optimizer := 0%nat; base_lrs := [0.05%float]; last_epoch := 5 |}
             1%nat 0 0.1%float ZeroDivisionError eq_refl (float_truediv_int_zero _)) in Hq.
  discriminate.
Qed.

(** ** Further properties of the piecewise step schedule *)

Section Segments.

Lemma count_le_none (t : Z) (ms : list Z) :
  Forall (fun m => t < m) ms -> count_le t ms = 0%nat.
Proof.
  unfold count_le. induction 1 as [|m ms Hm _ IH]; simpl; [reflexivity|].
  destruct (m <=? t) eqn:E; [lia|exact IH].
Qed.

Lemma count_le_all (t : Z) (ms : list Z) :
  Forall (fun m => m <= t) ms -> count_le t ms = length ms.
Proof.
  unfold count_le. induction 1 as [|m ms Hm _ IH]; simpl; [reflexivity|].
  destruct (m <=? t) eqn:E; [simpl; f_equal; exact IH|lia].
Qed.

Lemma count_le_mono (t t' : Z) (ms : list Z) :
  t <= t' -> (count_le t ms <= count_le t' ms)%nat.
Proof.
  intros Ht. unfold count_le. induction ms as [|m ms IH]; simpl; [lia|].
  destruct (m <=? t) eqn:E, (m <=? t') eqn:E'; simpl; lia.
Qed.

Lemma last_cons_default {A} (a x y : A) (l : list A) :
  List.last (a :: l) x = List.last (a :: l) y.
Proof.
  revert a. induction l as [|b l IH]; intros a; [reflexivity|].
  change (List.last (b :: l) x = List.last (b :: l) y). apply IH.
Qed.

Lemma nth_error_last {A} (x : A) (l : list A) :
  nth_error (x :: l) (length l) = Some (List.last l x).
Proof.
  revert x. induction l as [|y l IH]; intros x; [reflexivity|].
  cbn [length nth_error]. rewrite IH. f_equal.
  destruct l as [|a l]; [reflexivity|].
  change (List.last (a :: l) y = List.last (a :: l) x). apply last_cons_default.
Qed.

(** [get_lr] of an object with a checked table, by the number of
    milestones reached. *)
Lemma get_lr_count (depth : nat) (h : heap) (self : loc) (s : LRScheduler_state)
    (ms : list Z) (gamma : list float) (f : float) :
  h !! self = Some (MultiStepMultiGammaLR s ms gamma) -> Sorted Z.le ms ->
  nth_error gamma (count_le (last_epoch s) ms) = Some f ->
  get_lr (S depth) self h
  = (Return (map (fun base_lr => (base_lr * f)%float) (base_lrs s)), h).
Proof.
  intros Hself Hs Hf. apply (get_lr_factor depth h self s ms gamma f Hself).
  rewrite (bisect_right_count ms (last_epoch s) Hs). unfold getitem. rewrite Hf.
  reflexivity.
Qed.

Lemma map_mul_1 (l : list float) : map (fun x => (x * 1)%float) l = l.
Proof.
  rewrite <- (map_id l) at 2. apply map_ext. intros x. apply float_mul_1_r.
Qed.

End Segments.

(** X1. Before the first milestone a constructed schedule answers with
    its base rates themselves, whatever the decay factors are. *)
Theorem MultiStepMultiGammaLR_before_first_milestone :
  forall (opt : loc) (milestones : list Z) (gamma : list float) (e : Z)
         (h0 h1 : heap) (self : loc),
    MultiStepMultiGammaLR.__init__ opt milestones gamma e h0 = (Return self, h1) ->
    forall (depth : nat) (h : heap) (s : LRScheduler_state),
      h !! self = Some (MultiStepMultiGammaLR s milestones (1%float :: gamma)) ->
      Forall (fun m => last_epoch s < m) milestones ->
      get_lr (S depth) self h = (Return (base_lrs s), h).
Proof.
  intros opt ms gamma e h0 h1 self Hinit depth h s Hself Hall.
  apply init_inv in Hinit as (Hs & _).
  rewrite (get_lr_count depth h self s ms (1%float :: gamma) 1%float Hself Hs).
  - rewrite map_mul_1. reflexivity.
  - rewrite (count_le_none _ _ Hall). reflexivity.
Qed.

Lemma MultiStepMultiGammaLR_before_first_milestone_witness :
  get_lr 1 1%nat
    [Optimizer [0.05%float];
     MultiStepMultiGammaLR {| optimizer := 0%nat; base_lrs := [0.05%float]; last_epoch := 29 |}
       [30; 80] [1; 0.1; 0.01]%float]
  = (Return [0.05%float],
     [Optimizer [0.05%float];
      MultiStepMultiGammaLR {| optimizer := 0%nat; base_lrs := [0.05%float]; last_epoch := 29 |}
        [30; 80] [1; 0.1; 0.01]%float]).
Proof.
  apply (MultiStepMultiGammaLR_before_first_milestone 0%nat [30; 80] [0.1; 0.01]%float (-1)
           [Optimizer [0.05%float]]
           [Optimizer [0.05%float];
            MultiStepMultiGammaLR {| optimizer := 0%nat; base_lrs := [0.05%float]; last_epoch := -1 |}
              [30; 80] [1; 0.1; 0.01]%float]
           1%nat eq_refl 0%nat
           [Optimizer [0.05%float];
            MultiStepMultiGammaLR {| optimizer := 0%nat; base_lrs := [0.05%float]; last_epoch := 29 |}
              [30; 80] [1; 0.1; 0.01]%float]
           {| optimizer := 0%nat; base_lrs := [0.05%float]; last_epoch := 29 |} eq_refl).
  repeat constructor; simpl; lia.
Defined.

(** X2. Once every milestone has been reached a constructed schedule
    answers with the base rates times the last decay factor, for good: any
    later counter gives the same rates. *)
Theorem MultiStepMultiGammaLR_after_last_milestone :
  forall (opt : loc) (milestones : list Z) (gamma : list float) (e : Z)
         (h0 h1 : heap) (self : loc),
    MultiStepMultiGammaLR.__init__ opt milestones gamma e h0 = (Return self, h1) ->
    forall (depth : nat) (h : heap) (s : LRScheduler_state),
      h !! self = Some (MultiStepMultiGammaLR s milestones (1%float :: gamma)) ->
      Forall (fun m => m <= last_epoch s) milestones ->
      get_lr (S depth) self h
      = (Return (map (fun base_rate => (base_rate * List.last gamma 1)%float) (base_lrs s)), h).
Proof.
  intros opt ms gamma e h0 h1 self Hinit depth h s Hself Hall.
  apply init_inv in Hinit as (Hs & Hl & _).
  apply (get_lr_count depth h self s ms (1%float :: gamma) _ Hself Hs).
  rewrite (count_le_all _ _ Hall), Hl. apply nth_error_last.
Qed.

Lemma MultiStepMultiGammaLR_after_last_milestone_witness :
  get_lr 1 1%nat
    [Optimizer [0.05%float];
     MultiStepMultiGammaLR {| optimizer := 0%nat; base_lrs := [0.05%float]; last_epoch := 99 |}
       [30; 80] [1; 0.1; 0.01]%float]
  = (Return (map (fun base_rate => (base_rate * List.last [0.1; 0.01] 1)%float) [0.05%float]),
     [Optimizer [0.05%float];
      MultiStepMultiGammaLR {| optimizer := 0%nat; base_lrs := [0.05%float]; last_epoch := 99 |}
        [30; 80] [1; 0.1; 0.01]%float]).
Proof.
  apply (MultiStepMultiGammaLR_after_last_milestone 0%nat [30; 80] [0.1; 0.01]%float (-1)
           [Optimizer [0.05%float]]
           [Optimizer [0.05%float];
            MultiStepMultiGammaLR {| optimizer := 0%nat; base_lrs := [0.05%float]; last_epoch := -1 |}
              [30; 80] [1; 0.1; 0.01]%float]
           1%nat eq_refl 0%nat
           [Optimizer [0.05%float];
            MultiStepMultiGammaLR {| optimizer := 0%nat; base_lrs := [0.05%float]; last_epoch := 99 |}
              [30; 80] [1; 0.1; 0.01]%float]
           {| optimizer := 0%nat; base_lrs := [0.05%float]; last_epoch := 99 |} eq_refl).
  repeat constructor; simpl; lia.
Defined.

(** X3. The factor a constructed schedule uses is looked up at an index
    that never moves backwards when the counter grows: at counters
    [t <= t'] the rates are the base rates times [factor[k]] and
    [factor[k']] with [k <= k']. *)
Theorem MultiStepMultiGammaLR_factor_index_monotone :
  forall (opt : loc) (milestones : list Z) (gamma : list float) (e : Z)
         (h0 h1 : heap) (self : loc),
    MultiStepMultiGammaLR.__init__ opt milestones gamma e h0 = (Return self, h1) ->
    forall (depth : nat) (h h' : heap) (s s' : LRScheduler_state),
      h !! self = Some (MultiStepMultiGammaLR s milestones (1%float :: gamma)) ->
      h' !! self = Some (MultiStepMultiGammaLR s' milestones (1%float :: gamma)) ->
      last_epoch s <= last_epoch s' ->
      exists (k k' : nat) (f f' : float),
        (k <= k')%nat /\
        nth_error (1%float :: gamma) k = Some f /\
        nth_error (1%float :: gamma) k' = Some f' /\
        get_lr (S depth) self h
        = (Return (map (fun base_rate => (base_rate * f)%float) (base_lrs s)), h) /\
        get_lr (S depth) self h'
        = (Return (map (fun base_rate => (base_rate * f')%float) (base_lrs s')), h').
Proof.
  intros opt ms gamma e h0 h1 self Hinit depth h h' s s' Hself Hself' Ht.
  apply init_inv in Hinit as (Hs & Hl & _).
  assert (Hk : forall t, exists f, nth_error (1%float :: gamma) (count_le t ms) = Some f).
  { intros t. destruct (nth_error (1%float :: gamma) (count_le t ms)) as [f|] eqn:Hf;
      [exists f; reflexivity|].
    apply nth_error_None in Hf. pose proof (count_le_bound t ms). simpl in Hf. lia. }
  destruct (Hk (last_epoch s)) as [f Hf]. destruct (Hk (last_epoch s')) as [f' Hf'].
  exists (count_le (last_epoch s) ms), (count_le (last_epoch s') ms), f, f'.
  split; [apply count_le_mono, Ht|]. split; [exact Hf|]. split; [exact Hf'|]. split.
  - apply (get_lr_count depth h self s ms _ f Hself Hs Hf).
  - apply (get_lr_count depth h' self s' ms _ f' Hself' Hs Hf').
Qed.

Lemma MultiStepMultiGammaLR_factor_index_monotone_witness :
  exists (k k' : nat) (f f' : float),
    (k <= k')%nat /\
    nth_error [1; 0.1; 0.01]%float k = Some f /\
    nth_error [1; 0.1; 0.01]%float k' = Some f' /\
    get_lr 1 1%nat (burn_in_heap 0.05 29)
    = (Return (map (fun base_rate => (base_rate * f)%float) [0.05%float]),
       burn_in_heap 0.05 29) /\
    get_lr 1 1%nat (burn_in_heap 0.05 80)
    = (Return (map (fun base_rate => (base_rate * f')%float) [0.05%float]),
       burn_in_heap 0.05 80).
Proof.
  apply (MultiStepMultiGammaLR_factor_index_monotone 0%nat [30; 80] [0.1; 0.01]%float (-1)
           [Optimizer [0.05%float]]
           [Optimizer [0.05%float];
            MultiStepMultiGammaLR {| optimizer := 0%nat; base_lrs := [0.05%float]; last_epoch := -1 |}
              [30; 80] [1; 0.1; 0.01]%float]
           1%nat eq_refl 0%nat (burn_in_heap 0.05 29) (burn_in_heap 0.05 80)
           {| optimizer := 0%nat; base_lrs := [0.05%float]; last_epoch := 29 |}
           {| optimizer := 0%nat; base_lrs := [0.05%float]; last_epoch := 80 |}
           eq_refl eq_refl).
  simpl. lia.
Defined.

(** X4. The constructor accepts a repeated milestone, and the decay factor
    of the first of two equal milestones is then dead: when milestones [j]
    and [j + 1] are equal, no counter makes [get_lr] look up
    [factor[j + 1]], which is [gamma[j]]. *)
Theorem MultiStepMultiGammaLR_repeated_milestone :
  forall (opt : loc) (milestones : list Z) (gamma : list float) (e : Z)
         (h0 h1 : heap) (self : loc),
    MultiStepMultiGammaLR.__init__ opt milestones gamma e h0 = (Return self, h1) ->
    forall (j : nat) (m : Z),
      nth_error milestones j = Some m -> nth_error milestones (S j) = Some m ->
      forall (depth : nat) (h : heap) (s : LRScheduler_state),
        h !! self = Some (MultiStepMultiGammaLR s milestones (1%float :: gamma)) ->
        exists (k : nat) (f : float),
          k <> S j /\
          nth_error (1%float :: gamma) k = Some f /\
          get_lr (S depth) self h
          = (Return (map (fun base_rate => (base_rate * f)%float) (base_lrs s)), h).
Proof.
  intros opt ms gamma e h0 h1 self Hinit j m Hj Hj' depth h s Hself.
  apply init_inv in Hinit as (Hs & Hl & _).
  set (k := count_le (last_epoch s) ms).
  destruct (nth_error (1%float :: gamma) k) as [f|] eqn:Hf.
  2:{ apply nth_error_None in Hf. pose proof (count_le_bound (last_epoch s) ms).
      fold k in H. simpl in Hf. lia. }
  exists k, f. split; [|split; [exact Hf|]].
  - intros Hk. destruct (bisect_right_split ms (last_epoch s) Hs) as [_ [Hlo Hhi]].
    fold k in Hlo, Hhi. rewrite Hk in Hlo, Hhi.
    assert (Hlen : (S j < length ms)%nat) by (apply nth_error_Some; congruence).
    pose proof (Hlo j ltac:(lia)) as H1. pose proof (Hhi (S j) ltac:(lia)) as H2.
    rewrite (nth_error_nth _ _ _ Hj) in H1. rewrite (nth_error_nth _ _ _ Hj') in H2. lia.
  - apply (get_lr_count depth h self s ms _ f Hself Hs Hf).
Qed.

Lemma MultiStepMultiGammaLR_repeated_milestone_witness :
  exists (k : nat) (f : float),
    k <> 1%nat /\
    nth_error [1; 0.1; 0.01]%float k = Some f /\
    get_lr 1 1%nat
      [Optimizer [0.05%float];
       MultiStepMultiGammaLR {| optimizer := 0%nat; base_lrs := [0.05%float]; last_epoch := 30 |}
         [30; 30] [1; 0.1; 0.01]%float]
    = (Return (map (fun base_rate => (base_rate * f)%float) [0.05%float]),
       [Optimizer [0.05%float];
        MultiStepMultiGammaLR {| optimizer := 0%nat; base_lrs := [0.05%float]; last_epoch := 30 |}
          [30; 30] [1; 0.1; 0.01]%float]).
Proof.
  apply (MultiStepMultiGammaLR_repeated_milestone 0%nat [30; 30] [0.1; 0.01]%float (-1)
           [Optimizer [0.05%float]]
           [Optimizer [0.05%float];
            MultiStepMultiGammaLR {| optimizer := 0%nat; base_lrs := [0.05%float]; last_epoch := -1 |}
              [30; 30] [1; 0.1; 0.01]%float]
           1%nat eq_refl 0%nat 30 eq_refl eq_refl 0%nat
           [Optimizer [0.05%float];
            MultiStepMultiGammaLR {| optimizer := 0%nat; base_lrs := [0.05%float]; last_epoch := 30 |}
              [30; 30] [1; 0.1; 0.01]%float]
           {| optimizer := 0%nat; base_lrs := [0.05%float]; last_epoch := 30 |} eq_refl).
Defined.

(** X5. With the default [gamma=[0.1]] the constructor raises
    [ValueError] exactly when [milestones] does not consist of one
    milestone: the default serves a single milestone only. *)
Theorem MultiStepMultiGammaLR_default_gamma :
  forall (h : heap) (opt : loc) (milestones : list Z) (e : Z),
    fst (MultiStepMultiGammaLR.__init__ opt milestones
           MultiStepMultiGammaLR.default_gamma e h) = Raise ValueError
    <-> length milestones <> 1%nat.
Proof.
  intros h opt ms e. split.
  - intros H Hl. destruct ms as [|m [|m' ms]]; try discriminate.
    assert (Hs : Sorted Z.le [m]) by repeat constructor.
    rewrite init_checked in H by (trivial; reflexivity). unfold bind in H.
    destruct (LRScheduler_init_cases h opt e) as [[groups Ho]|[x [Hx Hne]]].
    + rewrite (LRScheduler_init_eq _ _ _ _ Ho) in H. discriminate.
    + rewrite Hx in H. simpl in H. congruence.
  - intros Hl. rewrite init_mismatch by exact Hl. reflexivity.
Qed.

(** ** Further properties of the burn-in wrapper *)



(** X7. From equal counters, [n] returning calls of the wrapper's
    [step()] take both the wrapper and the schedule it wraps [n] counts
    further: the two stay equal throughout a run. *)
Theorem BurnInLR_step_loop_in_sync :
  forall (n depth : nat) (h h' : heap) (self : loc) (s : LRScheduler_state) (b : loc)
         (steps : Z) (start : float),
    h !! self = Some (BurnInLR s b steps start) -> b <> self ->
    counter_of h b = Some (last_epoch s) ->
    step_loop depth self n h = (Return tt, h') ->
    counter_of h' self = Some (last_epoch s + Z.of_nat n) /\
    counter_of h' b = Some (last_epoch s + Z.of_nat n).
Proof.
  induction n as [|n IH]; intros depth h h' self s b steps start Hself Hne Hc Hrun.
  - injection Hrun as <-. rewrite Z.add_0_r. split; [|exact Hc].
    unfold counter_of. rewrite Hself. reflexivity.
  - cbn [step_loop] in Hrun. unfold bind in Hrun.
    destruct (step depth self None h) as [[[]|x] h1] eqn:Hstep; [|discriminate].
    destruct (BurnInLR_step_counters depth h h1 self s b steps start None (Return tt)
                (last_epoch s) Hself Hne Hc Hstep) as (Hw & Hb & _).
    specialize (Hb eq_refl). simpl in Hw, Hb.
    pose proof (preserving_step depth self None h) as He. rewrite Hstep in He.
    destruct (BurnInLR_kept h h1 self s b steps start He Hself) as (s1 & Hself1 & _).
    assert (Hs1 : last_epoch s1 = last_epoch s + 1).
    { unfold counter_of in Hw. rewrite Hself1 in Hw. simpl in Hw. congruence. }
    rewrite <- Hs1 in Hb.
    destruct (IH depth h1 h' self s1 b steps start Hself1 Hne Hb Hrun) as [H1 H2].
    rewrite Hs1 in H1, H2.
    replace (last_epoch s + Z.of_nat (S n)) with (last_epoch s + 1 + Z.of_nat n) by lia.
    split; assumption.
Qed.

Lemma BurnInLR_step_loop_in_sync_witness :
  counter_of (snd (step_loop 2 2%nat 12 (burn_in_heap 0.05 0))) 2%nat = Some 12 /\
  counter_of (snd (step_loop 2 2%nat 12 (burn_in_heap 0.05 0))) 1%nat = Some 12.
Proof.
  apply (BurnInLR_step_loop_in_sync 12 2 (burn_in_heap 0.05 0)
           (snd (step_loop 2 2%nat 12 (burn_in_heap 0.05 0))) 2%nat
           {| optimizer := 0%nat; base_lrs := [0.05%float]; last_epoch := 0 |}
           1%nat 10 0.1%float).
  - reflexivity.
  - lia.
  - reflexivity.
  - reflexivity.
Defined.

(** X8. A call of the wrapper's [step] writes to three objects only: the
    wrapper, the schedule it wraps and the optimizer. Every other object
    is left as it was, whatever the outcome of the call; so the schedule
    inside a wrapped wrapper keeps its counter: the synchronisation is one
    level deep. *)
Theorem BurnInLR_step_frame :
  forall (depth : nat) (h h' : heap) (self : loc) (s : LRScheduler_state) (b : loc)
         (steps : Z) (start : float) (epoch : option Z) (r : outcome unit) (c : Z),
    h !! self = Some (BurnInLR s b steps start) -> b <> self ->
    counter_of h b = Some c ->
    step depth self epoch h = (r, h') ->
    forall l : loc, l <> self -> l <> b -> l <> optimizer s -> h' !! l = h !! l.
Proof.
  intros depth h h' self s b steps start epoch r c Hself Hne Hc Hstep l Hl1 Hl2 Hl3.
  unfold counter_of in Hc.
  destruct (h !! b) as [ob|] eqn:Hb; [|discriminate].
  destruct (state_of ob) as [sb|] eqn:Hsb; [|discriminate].
  rewrite (BurnInLR_step_run depth h self s b steps start epoch ob sb Hself Hne Hb Hsb)
    in Hstep.
  set (h1 := <[self := BurnInLR (with_last_epoch s (next_epoch epoch (last_epoch s)))
                         b steps start]> h) in *.
  assert (H1 : h1 !! l = h !! l) by (apply list_lookup_insert_ne; congruence).
  destruct (fst (get_lr depth self h1)) as [values|x].
  - destruct (h1 !! optimizer s) as [[groups|? ? ?|? ? ? ?|? ?]|];
      injection Hstep as <- <-; try exact H1.
    rewrite list_lookup_insert_ne by congruence.
    rewrite list_lookup_insert_ne by congruence. exact H1.
  - injection Hstep as <- <-. exact H1.
Qed.

Lemma BurnInLR_step_frame_witness :
  snd (step 3 3%nat None (nested_heap 20 20 20)) !! 1%nat = nested_heap 20 20 20 !! 1%nat.
Proof.
  apply (BurnInLR_step_frame 3 (nested_heap 20 20 20)
           (snd (step 3 3%nat None (nested_heap 20 20 20))) 3%nat
           {| optimizer := 0%nat; base_lrs := [0.05%float]; last_epoch := 20 |}
           2%nat 5 0.5%float None (fst (step 3 3%nat None (nested_heap 20 20 20))) 20).
  - reflexivity.
  - lia.
  - reflexivity.
  - reflexivity.
  - lia.
  - lia.
  - simpl. lia.
Defined.

(** X9. A returning [step(e)] with an explicit epoch sets both counters to
    [e], whatever they were; a returning [step()] advances each of the two
    counters by one from its own value, so a difference between them is
    kept, not repaired. *)
Theorem BurnInLR_step_drift :
  forall (depth : nat) (h h' : heap) (self : loc) (s : LRScheduler_state) (b : loc)
         (steps : Z) (start : float) (epoch : option Z) (c : Z),
    h !! self = Some (BurnInLR s b steps start) -> b <> self ->
    counter_of h b = Some c ->
    step depth self epoch h = (Return tt, h') ->
    match epoch with
    | Some e => counter_of h' self = Some e /\ counter_of h' b = Some e
    | None => counter_of h' self = Some (last_epoch s + 1) /\
              counter_of h' b = Some (c + 1)
    end.
Proof.
  intros depth h h' self s b steps start epoch c Hself Hne Hc Hstep.
  destruct (BurnInLR_step_counters depth h h' self s b steps start epoch (Return tt) c
              Hself Hne Hc Hstep) as (Hw & Hb & _).
  specialize (Hb eq_refl). destruct epoch as [e|]; split; assumption.
Qed.

Lemma BurnInLR_step_drift_witness :
  counter_of (snd (step 3 3%nat None (nested_heap 3 7 4))) 3%nat = Some (4 + 1) /\
  counter_of (snd (step 3 3%nat None (nested_heap 3 7 4))) 2%nat = Some (7 + 1).
Proof.
  apply (BurnInLR_step_drift 3 (nested_heap 3 7 4)
           (snd (step 3 3%nat None (nested_heap 3 7 4))) 3%nat
           {| optimizer := 0%nat; base_lrs := [0.05%float]; last_epoch := 4 |}
           2%nat 5 0.5%float None 7).
  - reflexivity.
  - lia.
  - reflexivity.
  - reflexivity.
Defined.

(** X10. Past [steps], the rates that a returning call of the wrapper's
    [step] writes to the optimizer are the rates of the wrapped
    [MultiStepMultiGammaLR] in the state before the call, at its counter of
    before the call: [step] queries the rates before it moves the inner
    counter. *)
Theorem BurnInLR_step_applies_previous_rates :
  forall (depth : nat) (h h' : heap) (self : loc) (s : LRScheduler_state) (b : loc)
         (steps : Z) (start alpha : float) (epoch : option Z)
         (sb : LRScheduler_state) (ms : list Z) (gamma groups : list float),
    h !! self = Some (BurnInLR s b steps start) ->
    h !! b = Some (MultiStepMultiGammaLR sb ms gamma) ->
    h !! optimizer s = Some (Optimizer groups) ->
    float_truediv_int (1 - start)%float steps = Return alpha ->
    steps < next_epoch epoch (last_epoch s) ->
    step (S (S depth)) self epoch h = (Return tt, h') ->
    exists values : list float,
      get_lr (S depth) b h = (Return values, h) /\
      h' !! optimizer s = Some (Optimizer (LRScheduler.apply_rates groups values)).
Proof.
  intros depth h h' self s b steps start alpha epoch sb ms gamma groups
         Hself Hb Ho Ha Ht Hstep.
  assert (Hne : b <> self) by (intros E; rewrite E in Hb; congruence).
  assert (Hos : optimizer s <> self) by (intros E; rewrite E in Ho; congruence).
  assert (Hob : optimizer s <> b) by (intros E; rewrite E in Ho; congruence).
  assert (Hlt : (self < length h)%nat) by (eapply lookup_lt_Some, Hself).
  rewrite (BurnInLR_step_run (S (S depth)) h self s b steps start epoch _ sb Hself Hne Hb
             eq_refl) in Hstep.
  set (t := next_epoch epoch (last_epoch s)) in *.
  set (h1 := <[self := BurnInLR (with_last_epoch s t) b steps start]> h) in *.
  assert (H1self : h1 !! self = Some (BurnInLR (with_last_epoch s t) b steps start))
    by (apply list_lookup_insert_eq, Hlt).
  assert (H1b : h1 !! b = Some (MultiStepMultiGammaLR sb ms gamma))
    by (rewrite <- Hb; apply list_lookup_insert_ne; congruence).
  assert (H1o : h1 !! optimizer s = Some (Optimizer groups))
    by (rewrite <- Ho; apply list_lookup_insert_ne; congruence).
  assert (Hq : fst (get_lr (S (S depth)) self h1) = fst (get_lr (S depth) b h)).
  { rewrite (BurnInLR_get_lr_alpha (S depth) h1 self _ b steps start alpha H1self Ha).
    simpl last_epoch. apply Z.leb_gt in Ht. rewrite Ht.
    cbn [get_lr]. unfold MultiStepMultiGammaLR.get_lr. run.
    rewrite H1b, Hb. simpl. rewrite H1b, Hb. reflexivity. }
  rewrite Hq, H1o in Hstep.
  destruct (fst (get_lr (S depth) b h)) as [values|x] eqn:Hv; [|discriminate].
  injection Hstep as <-. exists values. split.
  - rewrite (get_lr_run (S depth) b h), Hv. reflexivity.
  - rewrite list_lookup_insert_ne by congruence.
    apply list_lookup_insert_eq. unfold h1. rewrite length_insert.
    eapply lookup_lt_Some, Ho.
Qed.

Lemma BurnInLR_step_applies_previous_rates_witness :
  exists values : list float,
    get_lr 1 1%nat (burn_in_heap 1 29) = (Return values, burn_in_heap 1 29) /\
    snd (step 2 2%nat None (burn_in_heap 1 29)) !! 0%nat
    = Some (Optimizer (LRScheduler.apply_rates [1%float] values)).
Proof.
  apply (BurnInLR_step_applies_previous_rates 0 (burn_in_heap 1 29)
           (snd (step 2 2%nat None (burn_in_heap 1 29))) 2%nat
           {| optimizer := 0%nat; base_lrs := [1%float]; last_epoch := 29 |}
           1%nat 10 0.1%float 0.09%float None
           {| optimizer := 0%nat; base_lrs := [1%float]; last_epoch := 29 |}
           [30; 80] [1; 0.1; 0.01]%float [1%float]).
  - reflexivity.
  - reflexivity.
  - reflexivity.
  - reflexivity.
  - simpl. lia.
  - reflexivity.
Defined.

(** The witness above in numbers: the step from 29 to 30 reaches the
    milestone 30, yet it leaves the group at the rate of counter 29. *)
Example BurnInLR_step_applies_previous_rates_example :
  snd (step 2 2%nat None (burn_in_heap 1 29)) !! 0%nat = Some (Optimizer [1%float]) /\
  fst (get_lr 2 2%nat (snd (step 2 2%nat None (burn_in_heap 1 29)))) = Return [0.1%float].
Proof. split; reflexivity. Qed.

Section OptimizerContents.

Lemma get_lr_same_schedules (depth : nat) (self : loc) (h h' : heap) :
  same_schedules h h' -> fst (get_lr depth self h) = fst (get_lr depth self h').
Proof.
  revert self. induction depth as [|depth IH]; intros self Hsame; [reflexivity|].
  cbn [get_lr]. unfold BurnInLR.get_lr, MultiStepMultiGammaLR.get_lr. run.
  pose proof (Hsame self) as Hself.
  destruct (h !! self) as [[g|s m g|s b n x|s r]|] eqn:Hl;
    destruct (h' !! self) as [[g'|s' m' g'|s' b' n' x'|s' r']|] eqn:Hl';
    try discriminate; try reflexivity.
  - injection Hself as <- <- <-. rewrite Hl, Hl'. reflexivity.
  - injection Hself as <- <- <- <-. rewrite Hl, Hl'.
    destruct (float_truediv_int (1 - x) n) as [alpha|e]; [|reflexivity].
    destruct (last_epoch s <=? n); [reflexivity|].
    specialize (IH b Hsame).
    destruct (get_lr depth b h) as [[vs|e] h1], (get_lr depth b h') as [[vs'|e'] h1'];
      simpl in *; congruence.
  - injection Hself as <- <-. reflexivity.
Qed.


End OptimizerContents.

(** X11. [get_lr] reads no rate of the optimizer: in two states that hold
    the same schedules and differ only in their optimizers it gives the
    same answer. The rates are computed from the base rates and the
    counters alone; a decay is never applied on top of an earlier one. *)
Theorem get_lr_ignores_optimizer :
  forall (depth : nat) (self : loc) (h h' : heap),
    same_schedules h h' ->
    fst (get_lr depth self h) = fst (get_lr depth self h').
Proof. intros depth self h h' Hsame. apply get_lr_same_schedules, Hsame. Qed.

Lemma get_lr_ignores_optimizer_witness :
  fst (get_lr 2 2%nat (burn_in_heap 0.05 30))
  = fst (get_lr 2 2%nat (<[0%nat := Optimizer [0.9; 0.8]%float]> (burn_in_heap 0.05 30))).
Proof.
  apply (get_lr_ignores_optimizer 2 2%nat (burn_in_heap 0.05 30)
           (<[0%nat := Optimizer [0.9; 0.8]%float]> (burn_in_heap 0.05 30))).
  intros [|[|[|l]]]; reflexivity.
Defined.

Section NoRamp.

(** A small [int] converts to a zero or to a finite number. *)
Lemma Z2F_shape (n : Z) :
  Z.abs n < 2 ^ 53 ->
  Prim2SF (Z2F n) = S754_zero false \/
  exists s m e, n <> 0 /\ Prim2SF (Z2F n) = S754_finite s m e.
Proof.
  intros Hb. destruct n as [|m|m]; [left; reflexivity| |]; right; unfold Z2F;
    cbn [binary_normalize].
  - destruct (binary_round_small false m) as (m' & e' & -> & Hv); [lia|].
    exists false, m', e'. split; [discriminate|]. apply Prim2SF_SF2Prim, Hv.
  - destruct (binary_round_small true m) as (m' & e' & -> & Hv); [lia|].
    exists true, m', e'. split; [discriminate|]. apply Prim2SF_SF2Prim, Hv.
Qed.

(** With [start = 1.0] the slope is a zero and the fraction is [1.0]. *)
Lemma ramp_start_one (steps t : Z) :
  steps <> 0 -> Z.abs steps < 2 ^ 53 -> Z.abs t < 2 ^ 53 ->
  (Z2F t * ((1 - 1) / Z2F steps) + 1)%float = 1%float.
Proof.
  intros Hn Hs Ht. apply Prim2SF_inj.
  rewrite add_spec, mul_spec, div_spec.
  change (Prim2SF (1 - 1)) with (S754_zero false).
  destruct (Z2F_shape steps Hs) as [Hz|(ss & ms & es & _ & ->)].
  { exfalso. destruct (Z2F_small steps Hn Hs) as [_ Hnz].
    unfold is_zero in Hnz. rewrite FloatAxioms.eqb_spec, Hz in Hnz. discriminate. }
  destruct (Z2F_shape t Ht) as [->|(st & mt & et & _ & ->)]; reflexivity.
Qed.

End NoRamp.

(** X12. With [start = 1.0] there is no burn-in: while the counter is at
    most [steps], the wrapper answers with its base rates themselves
    ([steps] not zero, [steps] and the counter below [2 ^ 53] in
    magnitude). *)
Theorem BurnInLR_start_one :
  forall (depth : nat) (h : heap) (self : loc) (s : LRScheduler_state) (b : loc)
         (steps : Z),
    h !! self = Some (BurnInLR s b steps 1%float) ->
    steps <> 0 -> Z.abs steps < 2 ^ 53 -> Z.abs (last_epoch s) < 2 ^ 53 ->
    last_epoch s <= steps ->
    get_lr (S depth) self h = (Return (base_lrs s), h).
Proof.
  intros depth h self s b steps Hself Hn Hs Ht Hle.
  rewrite (BurnInLR_get_lr_alpha depth h self s b steps 1%float _ Hself
             (float_truediv_int_small _ steps Hn Hs)).
  apply Z.leb_le in Hle. rewrite Hle. f_equal.
  rewrite (comprehension_map (fun base_lr => (base_lr * 1)%float)).
  - rewrite map_mul_1. reflexivity.
  - intros base_lr _. rewrite (int_mul_float_small _ _ Ht). cbn [bind_outcome].
    rewrite (ramp_start_one steps (last_epoch s) Hn Hs Ht). reflexivity.
Qed.

Lemma BurnInLR_start_one_witness :
  get_lr 1 2%nat
    (<[2%nat := BurnInLR {| optimizer := 0%nat; base_lrs := [0.05%float]; last_epoch := 3 |}
                  1%nat 10 1%float]> (burn_in_heap 0.05 3))
  = (Return [0.05%float],
     <[2%nat := BurnInLR {| optimizer := 0%nat; base_lrs := [0.05%float]; last_epoch := 3 |}
                  1%nat 10 1%float]> (burn_in_heap 0.05 3)).
Proof.
  apply (BurnInLR_start_one 0
           (<[2%nat := BurnInLR {| optimizer := 0%nat; base_lrs := [0.05%float];
                                   last_epoch := 3 |} 1%nat 10 1%float]>
              (burn_in_heap 0.05 3))
           2%nat
           {| optimizer := 0%nat; base_lrs := [0.05%float]; last_epoch := 3 |}
           1%nat 10).
  - reflexivity.
  - lia.
  - simpl. lia.
  - simpl. lia.
  - simpl. lia.
Defined.

(** ** Stepping the piecewise step schedule *)


